(** * Valkyrris seismic monitor: notification pipeline

    A shallow embedding of the TypeScript hooks that make up the alerting
    pipeline of the monitor:

    - [useEarthquakes.ts]            feed polling and record normalisation,
    - [useNotifications.ts]          change detection, local urgent alerts and
                                     the alert-tone player,
    - [useSupabaseNotifications.ts]  realtime bridge over Postgres changes,
    - [useFirebaseNotifications.ts]  realtime bridge over database snapshots.

    JavaScript numbers are IEEE-754 binary64 values and are modelled by the
    kernel's primitive floats; a [Set<string>] is a [gset string]; React refs
    and module-level variables become fields of an explicit state that is
    threaded through each hook body; calls into the browser are recorded as
    a trace of effects, and those that can throw are answered by an oracle. *)

From Stdlib Require Import Floats.PrimFloat.
From Stdlib Require Import ZArith Floats Sorted Permutation.
From Stdlib Require Uint63.
From stdpp Require Import base option list strings gmap.

Local Open Scope string_scope.

(** ** JavaScript values used by the hooks *)
Module Js.

(** [!x] for a number: [0], [-0] and [NaN] are falsy. *)
Definition num_falsy (x : float) : bool :=
  (PrimFloat.eqb x 0%float || negb (PrimFloat.eqb x x))%bool.

(** [!s] for a string: only the empty string is falsy. *)
Definition str_falsy (s : string) : bool :=
  match s with
  | EmptyString => true
  | String _ _ => false
  end.

(** [x || d] on a possibly missing number. *)
Definition num_or (x : option float) (d : float) : float :=
  match x with
  | Some v => if num_falsy v then d else v
  | None => d
  end.

(** [s || d] on a possibly missing string. *)
Definition str_or (s : option string) (d : string) : string :=
  match s with
  | Some v => if str_falsy v then d else v
  | None => d
  end.

(** Truthiness of a possibly missing string, as tested by [if (s && ...)]. *)
Definition str_truthy (s : option string) : bool :=
  match s with
  | Some v => negb (str_falsy v)
  | None => false
  end.

(** [a > b] on numbers. *)
Definition gt (a b : float) : bool := PrimFloat.ltb b a.

(** [a >= b] on numbers. *)
Definition ge (a b : float) : bool := PrimFloat.leb b a.

(** [a <= b] on numbers. *)
Definition le (a b : float) : bool := PrimFloat.leb a b.

(** A value caught by [catch (err)]: an [Error] instance with its message,
    or any other thrown value. *)
Inductive Thrown : Type :=
  | ErrorObject (message : string)
  | OtherValue.

(** [Notification.permission]. *)
Inductive NotificationPermission : Type :=
  | Default
  | Granted
  | Denied.

Definition is_granted (p : option NotificationPermission) : bool :=
  match p with
  | Some Granted => true
  | _ => false
  end.

(** [type Language = 'en' | 'ru'] of [i18n.ts]. *)
Inductive Language : Type :=
  | En
  | Ru.

Definition language_tag (l : Language) : string :=
  match l with
  | En => "en"
  | Ru => "ru"
  end.

Definition is_ru (l : Language) : bool :=
  match l with
  | Ru => true
  | En => false
  end.

End Js.

(** ** Exceptions and state

    A hook body reads and writes its refs and state cells and may throw; an
    [async] function that throws rejects its promise.  [M S A] is a
    computation over a state [S] that either returns an [A] or throws. *)
Module Exn.
Import Js.

Inductive Outcome (A : Type) : Type :=
  | Returned (a : A)
  | Threw (err : Thrown).
Arguments Returned {A} a.
Arguments Threw {A} err.

Definition M (S A : Type) : Type := S -> Outcome A * S.

Definition ret {S A} (a : A) : M S A := fun s => (Returned a, s).

Definition bind {S A B} (m : M S A) (k : A -> M S B) : M S B :=
  fun s =>
    match m s with
    | (Returned a, s') => k a s'
    | (Threw e, s') => (Threw e, s')
    end.

Definition throw {S A} (e : Thrown) : M S A := fun s => (Threw e, s).

Definition get {S} : M S S := fun s => (Returned s, s).

Definition modify {S} (f : S -> S) : M S unit := fun s => (Returned tt, f s).

(** [await p]: a rejected promise throws at the [await]. *)
Definition await {S A} (p : Thrown + A) : M S A :=
  match p with
  | inl e => throw e
  | inr a => ret a
  end.

(** [try { m } catch (err) { handler err }] *)
Definition tryCatch {S A} (m : M S A) (handler : Thrown -> M S A) : M S A :=
  fun s =>
    match m s with
    | (Returned a, s') => (Returned a, s')
    | (Threw e, s') => handler e s'
    end.

(** [try { m } finally { fin }] *)
Definition tryFinally {S A} (m : M S A) (fin : M S unit) : M S A :=
  fun s =>
    let '(o, s') := m s in
    match fin s' with
    | (Returned _, s'') => (o, s'')
    | (Threw e, s'') => (Threw e, s'')
    end.

(** [if (c) { m }] *)
Definition when {S} (c : bool) (m : M S unit) : M S unit :=
  if c then m else ret tt.

Definition returns {S A} (m : M S A) (s : S) : Prop :=
  exists a, fst (m s) = Returned a.

Lemma tryCatch_returns {S A} (m : M S A) (handler : Thrown -> M S A) (s : S) :
  (forall e s', returns (handler e) s') -> returns (tryCatch m handler) s.
Proof.
  intros H. unfold returns, tryCatch.
  destruct (m s) as [[a|e] s']; [exists a; reflexivity|apply H].
Qed.

End Exn.

Declare Scope js_scope.
Delimit Scope js_scope with js.
Notation "x <- m ;; k" := (Exn.bind m (fun x => k))
  (at level 100, m at next level, right associativity) : js_scope.
Notation "m ;; k" := (Exn.bind m (fun _ => k))
  (at level 100, right associativity) : js_scope.

(** ** [interface Earthquake] of [useEarthquakes.ts]

    [latitude] and [longitude] are read from the coordinate array without a
    default, so at run time they are [undefined] when the array is short. *)
Record Earthquake : Type := mkEarthquake {
  id : string;
  magnitude : float;
  place : string;
  time : float;
  depth : float;
  latitude : option float;
  longitude : option float;
  url : string
}.

(** ** The alert surface and the audio path, as seen by the dispatchers *)
Module Surface.

(** What a dispatcher asks of the browser, in program order:
    [activateAudioContext()], [playAlertSound()], [new Notification(...)],
    the auto-close timer, the log line that follows a successful
    construction, and the write of [sent_at] back to the store. *)
Inductive Effect : Type :=
  | ActivateAudioContext
  | PlayAlertSound
  | NewNotification (title body tag : string) (requireInteraction : bool)
  | SetTimeoutClose (tag : string) (delayMs : Z)
  | LogSent (tag : string)
  | MarkSent (tag : string).

Definition isNotification (e : Effect) : bool :=
  match e with
  | NewNotification _ _ _ _ => true
  | _ => false
  end.

Definition isSound (e : Effect) : bool :=
  match e with
  | PlayAlertSound => true
  | _ => false
  end.

(** Whether the alert surface is invoked. *)
Definition invokesAlertSurface (effs : list Effect) : bool :=
  existsb isNotification effs.

(** Whether the audio path is invoked. *)
Definition invokesAudio (effs : list Effect) : bool :=
  existsb isSound effs.

(** Number of alerts raised on the alert surface for one identifier. *)
Definition alertsFor (tag : string) (effs : list Effect) : nat :=
  length (List.filter
            (fun e => match e with
                      | NewNotification _ _ t _ => bool_decide (t = tag)
                      | _ => false
                      end) effs).

End Surface.

(** ** Feed polling and normalisation ([useEarthquakes]) *)
Module UseEarthquakes.
Import Js Exn.

(** A GeoJSON feature as the feed delivers it.  Every member may be missing
    ([undefined] or [null]); entries of the coordinate array may be [null]. *)
Module Raw.

Record Properties : Type := mkProperties {
  mag : option float;
  place : option string;
  time : option float;
  url : option string
}.

Record Geometry : Type := mkGeometry {
  coordinates : option (list float)
}.

Record Feature : Type := mkFeature {
  id : option string;
  properties : option Properties;
  geometry : option Geometry
}.

End Raw.

(** [data] after [await response.json()]: [null] (reading [.features] throws
    a [TypeError]), a value whose [features] is missing or not an array, or
    a feature collection whose entries may themselves be [null]. *)
Inductive FeedData : Type :=
  | DataNull
  | DataWithoutFeatures
  | DataFeatures (features : list (option Raw.Feature)).

Record Response : Type := mkResponse {
  ok : bool;
  statusText : string;
  json : Thrown + FeedData
}.

Inductive TimeRange : Type :=
  | Range24h
  | Range7d
  | Range30d.

(** The two upstream strategies: a member of [USGS_REALTIME_FEEDS], or a
    query against [USGS_API_BASE] centred on (31.0, 35.0) with
    [maxradiuskm=1500]. *)
Inductive Request : Type :=
  | RealtimeFeed (timeRange : TimeRange)
  | QueryApi (startTime endTime minMagnitude : float).

(** What the browser provides to one run of [fetchEarthquakesFn].  The
    readings of [Date.now()] within one run are taken to be equal. *)
Record Platform : Type := mkPlatform {
  now : float;
  fetch : Request -> Thrown + Response;
  typeErrorMessage : string;
  toStr : option float -> string;
  sin : float -> float;
  cos : float -> float;
  sqrt : float -> float;
  atan2 : float -> float -> float
}.

Record Options : Type := mkOptions {
  timeRange : TimeRange;
  minMagnitude : float;
  autoRefresh : bool
}.

(** The three [useState] cells of the hook. *)
Record HookState : Type := mkHookState {
  earthquakes : list Earthquake;
  loading : bool;
  error : option string
}.

Definition setEarthquakes (v : list Earthquake) : M HookState unit :=
  modify (fun st => mkHookState v (loading st) (error st)).

Definition setLoading (v : bool) : M HookState unit :=
  modify (fun st => mkHookState (earthquakes st) v (error st)).

Definition setError (v : option string) : M HookState unit :=
  modify (fun st => mkHookState (earthquakes st) (loading st) v).

(** [coordinates[i]], [undefined] past the end. *)
Definition coordAt (cs : list float) (i : nat) : option float :=
  cs !! i.

(** The [.filter] callback:
    [feature && feature.properties && feature.geometry
     && feature.geometry.coordinates]. *)
Definition wellFormed (feature : option Raw.Feature) : bool :=
  match feature with
  | Some f =>
      match Raw.properties f, Raw.geometry f with
      | Some _, Some g =>
          match Raw.coordinates g with
          | Some _ => true
          | None => false
          end
      | _, _ => false
      end
  | None => false
  end.

Section Transform.

Variable pf : Platform.

Definition typeError : Thrown := ErrorObject (typeErrorMessage pf).

(** The [.map] callback.  Reading a member of [undefined] throws. *)
Definition toEarthquake (feature : option Raw.Feature) : Thrown + Earthquake :=
  match feature with
  | None => inl typeError
  | Some f =>
      match Raw.properties f, Raw.geometry f with
      | Some p, Some g =>
          match Raw.coordinates g with
          | Some cs =>
              inr {| id := str_or (Raw.id f)
                             ("quake-" ++ toStr pf (Raw.time p) ++ "-"
                              ++ toStr pf (coordAt cs 0) ++ "-"
                              ++ toStr pf (coordAt cs 1));
                     magnitude := num_or (Raw.mag p) 0%float;
                     place := str_or (Raw.place p) "Unknown";
                     time := num_or (Raw.time p) (now pf);
                     depth := num_or (coordAt cs 2) 0%float;
                     latitude := coordAt cs 1;
                     longitude := coordAt cs 0;
                     url := str_or (Raw.url p) "" |}
          | None => inl typeError
          end
      | _, _ => inl typeError
      end
  end.

(** [Array.prototype.map] with a callback that may throw. *)
Fixpoint mapThrowing {A B} (f : A -> Thrown + B) (l : list A) : Thrown + list B :=
  match l with
  | [] => inr []
  | a :: t =>
      match f a with
      | inl e => inl e
      | inr b =>
          match mapThrowing f t with
          | inl e => inl e
          | inr bs => inr (b :: bs)
          end
      end
  end.

(** [data.features.filter(...).map(...)] *)
Definition transform (features : list (option Raw.Feature))
  : Thrown + list Earthquake :=
  mapThrowing toEarthquake (List.filter wellFormed features).

(** A number read from a possibly [undefined] member, in arithmetic. *)
Definition toNumber (x : option float) : float :=
  match x with
  | Some v => v
  | None => nan
  end.

Definition PI : float := 0x1.921fb54442d18p+1%float.

(** The great-circle distance computed inside the region filter, in km. *)
Definition haversineKm (lat1 lon1 : float) (quake : Earthquake) : float :=
  let R := 6371%float in
  let dLat := ((toNumber (latitude quake) - lat1) * PI / 180)%float in
  let dLon := ((toNumber (longitude quake) - lon1) * PI / 180)%float in
  let a :=
    (sin pf (dLat / 2) * sin pf (dLat / 2)
     + cos pf (lat1 * PI / 180) * cos pf (toNumber (latitude quake) * PI / 180)
       * sin pf (dLon / 2) * sin pf (dLon / 2))%float in
  let c := (2 * atan2 pf (sqrt pf a) (sqrt pf (1 - a)))%float in
  (R * c)%float.

(** The [.filter] callback of the real-time strategy. *)
Definition inRegion (minMag : float) (quake : Earthquake) : bool :=
  let israelLat := 31%float in
  let israelLon := 35%float in
  let radiusKm := 1500%float in
  (le (haversineKm israelLat israelLon quake) radiusKm
   && ge (magnitude quake) minMag)%bool.

(** [sort((a, b) => b.time - a.time)]: a stable sort, most recent first. *)
Fixpoint insertByTime (x : Earthquake) (l : list Earthquake) : list Earthquake :=
  match l with
  | [] => [x]
  | y :: t =>
      if gt (time y - time x)%float 0%float
      then y :: insertByTime x t
      else x :: y :: t
  end.

Definition sortByTimeDesc (l : list Earthquake) : list Earthquake :=
  foldr insertByTime [] l.

Definition startOfRange (tr : TimeRange) : float :=
  match tr with
  | Range24h => (now pf - 24 * 60 * 60 * 1000)%float
  | Range7d => (now pf - 7 * 24 * 60 * 60 * 1000)%float
  | Range30d => (now pf - 30 * 24 * 60 * 60 * 1000)%float
  end.

(** The literal [0.1] as a binary64 value. *)
Definition realtimeThreshold : float := 0x1.999999999999ap-4%float.

(** The request that the configured minimum magnitude selects. *)
Definition requestFor (opts : Options) : Request :=
  if le (minMagnitude opts) realtimeThreshold
  then RealtimeFeed (timeRange opts)
  else QueryApi (startOfRange (timeRange opts)) (now pf) (minMagnitude opts).

(** [await fetch(url)], the [response.ok] check and [await response.json()]. *)
Definition fetchData (opts : Options) : M HookState FeedData :=
  (response <- await (fetch pf (requestFor opts)) ;;
   if negb (ok response)
   then throw (ErrorObject ("API error: " ++ statusText response))
   else await (json response))%js.

(** The [try] block of [fetchEarthquakesFn]. *)
Definition fetchTry (opts : Options) : M HookState unit :=
  (data <- fetchData opts ;;
   match data with
   | DataNull => throw typeError
   | DataWithoutFeatures => setEarthquakes []
   | DataFeatures features =>
       earthquakesData <- await (transform features) ;;
       let earthquakesData :=
         if le (minMagnitude opts) realtimeThreshold
         then List.filter (inRegion (minMagnitude opts)) earthquakesData
         else earthquakesData in
       setEarthquakes (sortByTimeDesc earthquakesData)
   end)%js.

(** [err instanceof Error ? err.message : 'Failed to fetch earthquakes'] *)
Definition errorText (err : Thrown) : string :=
  match err with
  | ErrorObject message => message
  | OtherValue => "Failed to fetch earthquakes"
  end.

Definition fetchEarthquakesFn (opts : Options) : M HookState unit :=
  (setLoading true ;;
   setError None ;;
   tryFinally
     (tryCatch (fetchTry opts) (fun err => setError (Some (errorText err))))
     (setLoading false))%js.

(** Transport error, non-2xx response or unparsable body. *)
Definition pollFails (opts : Options) : bool :=
  match fetch pf (requestFor opts) with
  | inl _ => true
  | inr response =>
      negb (ok response)
      || match json response with
         | inl _ => true
         | inr _ => false
         end
  end.

End Transform.

(** *** Sample platforms and records *)

Definition offlinePlatform : Platform :=
  {| now := 1700000000000%float;
     fetch := fun _ => inl (ErrorObject "Failed to fetch");
     typeErrorMessage := "Cannot read properties of undefined";
     toStr := fun _ => "n";
     sin := fun x => x;
     cos := fun x => x;
     sqrt := PrimFloat.sqrt;
     atan2 := fun y x => y |}.

Definition defaultOptions : Options := mkOptions Range24h 2.5%float true.

Definition lastGood : HookState :=
  mkHookState
    [mkEarthquake "eq1" 5%float "Dead Sea" 1700000000000%float 10%float
                  (Some 31.5%float) (Some 35.5%float) ""]
    false None.

Definition bareProperties : Raw.Properties := Raw.mkProperties None None None None.

Definition shortFeature : option Raw.Feature :=
  Some (Raw.mkFeature (Some "short") (Some bareProperties)
                      (Some (Raw.mkGeometry (Some [])))).

Definition goodFeature : option Raw.Feature :=
  Some (Raw.mkFeature (Some "good") (Some bareProperties)
                      (Some (Raw.mkGeometry (Some [35.5%float; 31.5%float; 10%float])))).

(** *** The poller never rejects and keeps the last good result *)

Lemma fetchEarthquakesFn_resolves pf opts st :
  fst (fetchEarthquakesFn pf opts st) = Returned tt.
Proof.
  unfold fetchEarthquakesFn, bind, tryFinally, tryCatch, setLoading, setError,
    modify. simpl.
  destruct (fetchTry pf opts _) as [[[]|e] s']; reflexivity.
Qed.

(** C5: when the fetch fails (the request rejects, the response is not
    2xx, or parsing the body rejects) the poll resolves, the previously fetched result set is
    unchanged, the error cell holds a string and loading is cleared. *)
Theorem failed_poll_keeps_last_result
    (pf : Platform) (opts : Options) (st : HookState) :
  pollFails pf opts = true ->
  let '(outcome, st') := fetchEarthquakesFn pf opts st in
  outcome = Returned tt
  /\ earthquakes st' = earthquakes st
  /\ (exists message, error st' = Some message)
  /\ loading st' = false.
Proof.
  unfold pollFails, fetchEarthquakesFn, fetchTry, fetchData, bind, tryFinally,
    tryCatch, await, throw, ret, setLoading, setError, modify.
  simpl. intros Hfail.
  destruct (fetch pf (requestFor pf opts)) as [e|response]; simpl.
  - repeat split. eexists; reflexivity.
  - destruct (ok response); simpl in *.
    + destruct (json response) as [e|data]; [|discriminate]. simpl.
      repeat split. eexists; reflexivity.
    + repeat split. eexists; reflexivity.
Qed.

(** C5 at an unreachable feed: the last good list survives. *)
Lemma failed_poll_keeps_last_result_witness :
  let '(outcome, st') := fetchEarthquakesFn offlinePlatform defaultOptions lastGood in
  outcome = Returned tt
  /\ earthquakes st' = earthquakes lastGood
  /\ (exists message, error st' = Some message)
  /\ loading st' = false.
Proof.
  apply (failed_poll_keeps_last_result offlinePlatform defaultOptions lastGood).
  reflexivity.
Defined.

(** A body that parses but carries no [features] array is not a failed
    fetch: the list is emptied and no error is reported. *)
Lemma collection_without_features_clears_list
    (pf : Platform) (opts : Options) (st : HookState) (response : Response) :
  fetch pf (requestFor pf opts) = inr response ->
  ok response = true ->
  json response = inr DataWithoutFeatures ->
  fetchEarthquakesFn pf opts st = (Returned tt, mkHookState [] false None).
Proof.
  intros Hfetch Hok Hjson.
  unfold fetchEarthquakesFn, fetchTry, fetchData, bind, tryFinally, tryCatch,
    await, throw, ret, setLoading, setError, setEarthquakes, modify.
  simpl. rewrite Hfetch. simpl. rewrite Hok. simpl. rewrite Hjson. reflexivity.
Qed.

(** *** The normaliser *)

Lemma mapThrowing_total {A B} (f : A -> Thrown + B) (l : list A) :
  (forall a, In a l -> exists b, f a = inr b) ->
  exists bs, mapThrowing f l = inr bs /\ Forall2 (fun a b => f a = inr b) l bs.
Proof.
  induction l as [|a l IH]; intros H.
  - exists []. split; [reflexivity|constructor].
  - destruct (H a (or_introl eq_refl)) as [b Hb].
    destruct IH as (bs & Hbs & Hall).
    { intros x Hx. apply H. right. exact Hx. }
    exists (b :: bs). simpl. rewrite Hb, Hbs.
    split; [reflexivity|constructor; assumption].
Qed.

Lemma wellFormed_toEarthquake pf feature :
  wellFormed feature = true -> exists e, toEarthquake pf feature = inr e.
Proof.
  unfold wellFormed, toEarthquake.
  destruct feature as [f|]; [|discriminate].
  destruct (Raw.properties f), (Raw.geometry f) as [g|]; try discriminate.
  destruct (Raw.coordinates g); [|discriminate].
  intros _. eexists; reflexivity.
Qed.

(** C6, as stated, fails: a record with a properties block whose
    coordinate array is present but empty has no coordinate pair, yet it
    is kept, with undefined latitude and longitude. *)
Lemma record_without_coordinate_pair_is_kept :
  transform offlinePlatform [shortFeature; goodFeature]
  = inr [ mkEarthquake "short" 0%float "Unknown" 1700000000000%float 0%float
                       None None "";
          mkEarthquake "good" 0%float "Unknown" 1700000000000%float 10%float
                       (Some 31.5%float) (Some 35.5%float) "" ].
Proof. reflexivity. Qed.

(** C6 (amended): normalising a batch never throws; a record is excluded if
    and only if it is null or lacks a properties block, a geometry block or
    the geometry's coordinate array, and every other record is kept, in
    order.  A kept record with no magnitude, place or time gets 0,
    "Unknown" and the current time; one with no feed identifier gets
    "quake-" followed by its time and its first two coordinates; latitude
    and longitude are the second and first coordinate as they are, so they
    stay undefined when the array is shorter than that. *)
Theorem normalizer_rejects_missing_blocks
    (pf : Platform) (features : list (option Raw.Feature)) :
  (exists out,
      transform pf features = inr out
      /\ Forall2 (fun f e => toEarthquake pf f = inr e)
                 (List.filter wellFormed features) out)
  /\ (forall feature,
        wellFormed feature = false
        <-> feature = None
            \/ exists f, feature = Some f
                 /\ (Raw.properties f = None \/ Raw.geometry f = None
                     \/ exists g, Raw.geometry f = Some g
                                  /\ Raw.coordinates g = None))
  /\ (forall f p g cs,
        Raw.properties f = Some p -> Raw.geometry f = Some g ->
        Raw.coordinates g = Some cs ->
        exists e, toEarthquake pf (Some f) = inr e
          /\ (Raw.mag p = None -> magnitude e = 0%float)
          /\ (Raw.place p = None -> place e = "Unknown")
          /\ (Raw.time p = None -> time e = now pf)
          /\ (Raw.id f = None ->
              id e = "quake-" ++ toStr pf (Raw.time p) ++ "-"
                     ++ toStr pf (cs !! 0) ++ "-" ++ toStr pf (cs !! 1))
          /\ latitude e = cs !! 1 /\ longitude e = cs !! 0).
Proof.
  split; [|split].
  - apply mapThrowing_total. intros a Ha. apply filter_In in Ha.
    apply wellFormed_toEarthquake. tauto.
  - intros feature. unfold wellFormed. split.
    + destruct feature as [f|]; [|left; reflexivity].
      intros H. right. exists f. split; [reflexivity|].
      destruct (Raw.properties f); [|left; reflexivity].
      destruct (Raw.geometry f) as [g|]; [|right; left; reflexivity].
      destruct (Raw.coordinates g) eqn:E; [discriminate|].
      right; right. exists g. split; [reflexivity|exact E].
    + intros [->|(f & -> & [H|[H|(g & Hg & H)]])]; [reflexivity| | |].
      * rewrite H. reflexivity.
      * rewrite H. destruct (Raw.properties f); reflexivity.
      * rewrite Hg, H. destruct (Raw.properties f); reflexivity.
  - intros f p g cs Hp Hg Hcs. unfold toEarthquake. rewrite Hp, Hg, Hcs.
    eexists. split; [reflexivity|]. simpl. unfold coordAt.
    repeat split; intros ->; reflexivity.
Qed.

(** *** The region filter

    Facts of binary64 arithmetic the filter rests on: negation commutes
    with multiplication and division, a difference changes sign (or stays
    a zero) when its operands are swapped, and the product of two numbers
    of magnitude at most one is finite. *)

Lemma binary_round_aux_opp prec emax s m e l :
  binary_round_aux prec emax (negb s) m e l
  = SFopp (binary_round_aux prec emax s m e l).
Proof.
  unfold binary_round_aux.
  destruct (shr_fexp prec emax m e l) as [mrs' e'].
  destruct (shr_fexp prec emax _ e' loc_Exact) as [mrs'' e''].
  destruct (shr_m mrs''); [reflexivity| |reflexivity].
  destruct (Z.leb e'' (emax - prec)); reflexivity.
Qed.

Lemma binary_round_opp prec emax s m e :
  binary_round prec emax (negb s) m e = SFopp (binary_round prec emax s m e).
Proof.
  unfold binary_round. destruct (shl_align m e _) as [mz ez].
  apply binary_round_aux_opp.
Qed.

Lemma SFmul_opp_l prec emax x y :
  SFmul prec emax (SFopp x) y = SFopp (SFmul prec emax x y).
Proof.
  destruct x as [sx|sx| |sx mx ex], y as [sy|sy| |sy my ey]; simpl;
    try reflexivity; try (destruct sx, sy; reflexivity).
  rewrite <- binary_round_aux_opp. f_equal. destruct sx, sy; reflexivity.
Qed.

Lemma SFmul_comm prec emax x y : SFmul prec emax x y = SFmul prec emax y x.
Proof.
  destruct x as [sx|sx| |sx mx ex], y as [sy|sy| |sy my ey]; simpl;
    try reflexivity; try (destruct sx, sy; reflexivity).
  rewrite (Pos.mul_comm mx my), (Z.add_comm ex ey), (xorb_comm sx sy).
  reflexivity.
Qed.

Lemma SFdiv_opp_l prec emax x y :
  SFdiv prec emax (SFopp x) y = SFopp (SFdiv prec emax x y).
Proof.
  destruct x as [sx|sx| |sx mx ex], y as [sy|sy| |sy my ey]; simpl;
    try reflexivity; try (destruct sx, sy; reflexivity).
  destruct (SFdiv_core_binary prec emax (Z.pos mx) ex (Z.pos my) ey) as [[mz ez] lz].
  rewrite <- binary_round_aux_opp. f_equal. destruct sx, sy; reflexivity.
Qed.

Lemma SFsub_swap prec emax x y :
  SFsub prec emax x y = SFopp (SFsub prec emax y x)
  \/ SFsub prec emax x y = SFsub prec emax y x.
Proof.
  destruct x as [sx|sx| |sx mx ex], y as [sy|sy| |sy my ey]; simpl;
    try (left; reflexivity); try (right; reflexivity);
    try (destruct sx, sy; simpl; (left; reflexivity) || (right; reflexivity)).
  all: try (left; rewrite ?negb_involutive; reflexivity).
  - rewrite (Z.min_comm ey ex).
    set (A := cond_Zopp sx (Z.pos (fst (shl_align mx ex (Z.min ex ey))))).
    set (B := cond_Zopp sy (Z.pos (fst (shl_align my ey (Z.min ex ey))))).
    unfold binary_normalize.
    destruct (A - B)%Z as [|p|p] eqn:E1.
    + right. assert (E2 : (B - A = 0)%Z) by lia. rewrite E2. reflexivity.
    + left. assert (E2 : (B - A = Z.neg p)%Z) by lia. rewrite E2.
      rewrite <- binary_round_opp. reflexivity.
    + left. assert (E2 : (B - A = Z.pos p)%Z) by lia. rewrite E2.
      rewrite <- binary_round_opp. reflexivity.
Qed.

Lemma SFopp_involutive x : SFopp (SFopp x) = x.
Proof. destruct x; simpl; rewrite ?negb_involutive; reflexivity. Qed.

Lemma opp_involutive (x : float) : (- - x = x)%float.
Proof. apply Prim2SF_inj. rewrite !opp_spec. apply SFopp_involutive. Qed.

Lemma mul_opp_l (x y : float) : ((- x) * y = - (x * y))%float.
Proof.
  apply Prim2SF_inj. rewrite opp_spec, !mul_spec, opp_spec. apply SFmul_opp_l.
Qed.

Lemma mul_comm (x y : float) : (x * y = y * x)%float.
Proof. apply Prim2SF_inj. rewrite !mul_spec. apply SFmul_comm. Qed.

Lemma mul_opp_r (x y : float) : (x * (- y) = - (x * y))%float.
Proof. rewrite mul_comm, mul_opp_l, mul_comm. reflexivity. Qed.

Lemma div_opp_l (x y : float) : ((- x) / y = - (x / y))%float.
Proof.
  apply Prim2SF_inj. rewrite opp_spec, !div_spec, opp_spec. apply SFdiv_opp_l.
Qed.

Lemma sub_swap (x y : float) :
  (x - y = - (y - x))%float \/ (x - y = y - x)%float.
Proof.
  destruct (SFsub_swap prec emax (Prim2SF x) (Prim2SF y)) as [H|H].
  - left. apply Prim2SF_inj. rewrite opp_spec, !sub_spec. exact H.
  - right. apply Prim2SF_inj. rewrite !sub_spec. exact H.
Qed.

(** Number of binary digits. *)
Lemma shr_1_digits (s : shr_record) :
  Zdigits2 (shr_m (shr_1 s)) = Z.max 0 (Zdigits2 (shr_m s) - 1).
Proof.
  destruct s as [m r t]. unfold shr_1.
  destruct m as [|p|p]; try (simpl; lia);
    destruct p; unfold Zdigits2, shr_m, digits2_pos; lia.
Qed.

Lemma shr_1_nonneg (s : shr_record) : (0 <= shr_m s -> 0 <= shr_m (shr_1 s))%Z.
Proof.
  destruct s as [m r t]. unfold shr_1.
  destruct m as [|p|p]; simpl; try lia; destruct p; simpl; lia.
Qed.

Lemma iter_shr_1_bounds (p : positive) (s : shr_record) :
  (0 <= shr_m s ->
   0 <= shr_m (SpecFloat.iter_pos shr_1 p s)
   /\ Zdigits2 (shr_m (SpecFloat.iter_pos shr_1 p s)) <= Zdigits2 (shr_m s))%Z.
Proof.
  revert s. induction p as [p IH|p IH|]; intros s Hs; simpl.
  - pose proof (shr_1_nonneg s Hs) as H1.
    pose proof (shr_1_digits s) as D1.
    destruct (IH _ H1) as [H2 D2]. destruct (IH _ H2) as [H3 D3].
    split; [exact H3|].
    assert (0 <= Zdigits2 (shr_m s))%Z by (destruct (shr_m s); simpl; lia).
    lia.
  - destruct (IH _ Hs) as [H2 D2]. destruct (IH _ H2) as [H3 D3].
    split; [exact H3|lia].
  - split; [apply shr_1_nonneg; exact Hs|].
    rewrite shr_1_digits.
    assert (0 <= Zdigits2 (shr_m s))%Z by (destruct (shr_m s); simpl; lia).
    lia.
Qed.

Lemma shr_fexp_bounds (m e : Z) (l : location) :
  (0 <= m)%Z ->
  let '(mrs, e') := shr_fexp prec emax m e l in
  (0 <= shr_m mrs
   /\ Zdigits2 (shr_m mrs) <= Zdigits2 m
   /\ e' <= Z.max e (fexp prec emax (Zdigits2 m + e)))%Z.
Proof.
  intros Hm. unfold shr_fexp, shr.
  assert (Hrec : shr_m (shr_record_of_loc m l) = m)
    by (destruct l as [|[| |]]; reflexivity).
  destruct (fexp prec emax (Zdigits2 m + e) - e)%Z as [|n|n] eqn:E.
  - rewrite Hrec. lia.
  - destruct (iter_shr_1_bounds n (shr_record_of_loc m l)) as [H1 H2];
      rewrite Hrec in *; [exact Hm|]. lia.
  - rewrite Hrec. lia.
Qed.

Lemma digits2_pos_succ (p : positive) :
  (Z.pos (digits2_pos (Pos.succ p)) <= Z.pos (digits2_pos p) + 1)%Z.
Proof. induction p; simpl; lia. Qed.

Lemma round_nearest_even_bounds (m : Z) (l : location) :
  (0 <= m ->
   0 <= round_nearest_even m l
   /\ Zdigits2 (round_nearest_even m l) <= Zdigits2 m + 1)%Z.
Proof.
  intros Hm.
  assert (Hs : (Zdigits2 (m + 1) <= Zdigits2 m + 1)%Z).
  { destruct m as [|p|p]; [simpl; lia| |lia].
    replace (Z.pos p + 1)%Z with (Z.pos (Pos.succ p)) by lia.
    apply digits2_pos_succ. }
  unfold round_nearest_even.
  destruct l as [|[| |]]; try destruct (Z.even m); split; lia.
Qed.

Lemma digits2_pos_bounds (p : positive) :
  (2 ^ (Z.pos (digits2_pos p) - 1) <= Z.pos p < 2 ^ Z.pos (digits2_pos p))%Z.
Proof.
  induction p as [p IH|p IH|]; simpl digits2_pos.
  - replace (Z.pos (Pos.succ (digits2_pos p)) - 1)%Z with (Z.pos (digits2_pos p)) by lia.
    replace (Z.pos (Pos.succ (digits2_pos p))) with (Z.succ (Z.pos (digits2_pos p) - 1 + 1)) by lia.
    rewrite Z.pow_succ_r by lia.
    replace (Z.pos (digits2_pos p) - 1 + 1)%Z with (Z.pos (digits2_pos p)) by lia.
    assert (2 ^ Z.pos (digits2_pos p) = 2 * 2 ^ (Z.pos (digits2_pos p) - 1))%Z.
    { rewrite <- Z.pow_succ_r by lia. f_equal. lia. }
    lia.
  - replace (Z.pos (Pos.succ (digits2_pos p)) - 1)%Z with (Z.pos (digits2_pos p)) by lia.
    replace (Z.pos (Pos.succ (digits2_pos p))) with (Z.succ (Z.pos (digits2_pos p) - 1 + 1)) by lia.
    rewrite Z.pow_succ_r by lia.
    replace (Z.pos (digits2_pos p) - 1 + 1)%Z with (Z.pos (digits2_pos p)) by lia.
    assert (2 ^ Z.pos (digits2_pos p) = 2 * 2 ^ (Z.pos (digits2_pos p) - 1))%Z.
    { rewrite <- Z.pow_succ_r by lia. f_equal. lia. }
    lia.
  - simpl. lia.
Qed.

Lemma digits2_pos_mul (p q : positive) :
  (Z.pos (digits2_pos (p * q)) <= Z.pos (digits2_pos p) + Z.pos (digits2_pos q))%Z.
Proof.
  pose proof (digits2_pos_bounds p) as [_ Hp].
  pose proof (digits2_pos_bounds q) as [_ Hq].
  pose proof (digits2_pos_bounds (p * q)) as [Hpq _].
  assert (H : (Z.pos (p * q) < 2 ^ (Z.pos (digits2_pos p) + Z.pos (digits2_pos q)))%Z).
  { rewrite Z.pow_add_r by lia. rewrite Pos2Z.inj_mul. nia. }
  assert (Hlt : (2 ^ (Z.pos (digits2_pos (p * q)) - 1)
                 < 2 ^ (Z.pos (digits2_pos p) + Z.pos (digits2_pos q)))%Z) by lia.
  apply Z.pow_lt_mono_r_iff in Hlt; lia.
Qed.

(** Rounding a non-negative mantissa whose value stays well below the largest
    exponent gives zero or a finite number. *)
Definition SFfinite (x : spec_float) : bool :=
  match x with
  | S754_zero _ | S754_finite _ _ _ => true
  | _ => false
  end.

Lemma binary_round_aux_finite (s : bool) (m : positive) (e : Z) (l : location) :
  (e <= 0)%Z -> (Z.pos (digits2_pos m) <= 200)%Z ->
  SFfinite (binary_round_aux prec emax s (Z.pos m) e l) = true.
Proof.
  intros He Hd. unfold binary_round_aux.
  assert (Hpos : (0 <= Z.pos m)%Z) by lia.
  pose proof (shr_fexp_bounds (Z.pos m) e l Hpos) as H1.
  destruct (shr_fexp prec emax (Z.pos m) e l) as [mrs' e'].
  destruct H1 as (N1 & D1 & E1).
  pose proof (round_nearest_even_bounds (shr_m mrs') (loc_of_shr_record mrs') N1)
    as [N2 D2].
  pose proof (shr_fexp_bounds _ e' loc_Exact N2) as H3.
  destruct (shr_fexp prec emax _ e' loc_Exact) as [mrs'' e''].
  destruct H3 as (N3 & D3 & E3).
  destruct (shr_m mrs'') as [|p|p] eqn:Em; [reflexivity| |exfalso; clear -N3; lia].
  assert (Hle : (e'' <= emax - prec)%Z).
  { assert (0 <= Zdigits2 (shr_m mrs'))%Z by (destruct (shr_m mrs'); simpl; lia).
    unfold fexp, emin, emax, prec in *. simpl Zdigits2 in D1, E1. lia. }
  apply Z.leb_le in Hle. rewrite Hle. reflexivity.
Qed.

(** A number of magnitude at most one. *)
Lemma small_cases (x : float) :
  le (abs x) 1%float = true ->
  match Prim2SF x with
  | S754_zero _ => True
  | S754_finite _ m e => (e <= -52 /\ Z.pos (digits2_pos m) <= 53)%Z
  | _ => False
  end.
Proof.
  unfold le. intros H. rewrite leb_spec, abs_spec in H.
  pose proof (Prim2SF_valid x) as Hv.
  destruct (Prim2SF x) as [s|s| |s m e]; simpl in *; try exact I;
    try discriminate.
  change (Prim2SF 1%float) with (S754_finite false 4503599627370496 (-52)) in H.
  unfold SFleb, SFcompare in H.
  unfold bounded, canonical_mantissa in Hv.
  apply andb_true_iff in Hv. destruct Hv as [Hc _].
  apply Z.eqb_eq in Hc. unfold fexp, emin, emax, prec in Hc.
  split.
  2:{ destruct (Z.max_spec (Z.pos (digits2_pos m) + e - 53) (3 - 1024 - 53)) as [[? Hm]|[? Hm]];
      change Z.max with IntDef.Z.max in Hm; rewrite Hm in Hc; lia. }
  destruct (Z.compare_spec e (-52)) as [E|E|E]; try discriminate; lia.
Qed.

Lemma small_product_finite (x y : float) :
  le (abs x) 1%float = true -> le (abs y) 1%float = true ->
  SFfinite (Prim2SF (x * y)%float) = true.
Proof.
  intros Hx Hy. apply small_cases in Hx. apply small_cases in Hy.
  rewrite mul_spec.
  destruct (Prim2SF x) as [sx|sx| |sx mx ex]; try contradiction;
    destruct (Prim2SF y) as [sy|sy| |sy my ey]; try contradiction;
    try reflexivity.
  unfold SF64mul. simpl SFmul.
  apply binary_round_aux_finite; [lia|].
  pose proof (digits2_pos_mul mx my). lia.
Qed.

Lemma finite_mul_zero (x : float) :
  SFfinite (Prim2SF x) = true ->
  (x * 0 = 0)%float \/ (x * 0 = -0)%float.
Proof.
  intros H.
  assert (Hz : exists s, Prim2SF (x * 0)%float = S754_zero s).
  { rewrite mul_spec. change (Prim2SF 0%float) with (S754_zero false).
    destruct (Prim2SF x) as [s|s| |s m e]; try discriminate;
      eexists; reflexivity. }
  destruct Hz as [[|] Hz]; [right|left]; apply Prim2SF_inj; rewrite Hz; reflexivity.
Qed.

Lemma sub_diag (x : float) :
  SFfinite (Prim2SF x) = true -> (x - x = 0)%float.
Proof.
  intros H. apply Prim2SF_inj. rewrite sub_spec.
  change (Prim2SF 0%float) with (S754_zero false).
  destruct (Prim2SF x) as [s|s| |s m e]; try discriminate.
  - destruct s; reflexivity.
  - unfold SF64sub. simpl. rewrite Z.sub_diag. reflexivity.
Qed.

Lemma half_angle_swap (pf : Platform) (x y : float) :
  (forall u, sin pf (- u) = (- sin pf u)%float) ->
  let s := sin pf ((x - y) * PI / 180 / 2)%float in
  let s' := sin pf ((y - x) * PI / 180 / 2)%float in
  s' = s \/ s' = (- s)%float.
Proof.
  intros Hodd. cbv zeta.
  destruct (sub_swap y x) as [H|H]; rewrite H.
  - right. rewrite mul_opp_l, !div_opp_l. apply Hodd.
  - left. reflexivity.
Qed.

Lemma square_swap (s s' k : float) :
  s' = s \/ s' = (- s)%float ->
  (s' * s' = s * s)%float /\ (k * s' * s' = k * s * s)%float.
Proof.
  intros [->| ->]; [split; reflexivity|].
  rewrite !mul_opp_r, !mul_opp_l, !opp_involutive. split; reflexivity.
Qed.

Lemma haversineKm_symmetric (pf : Platform) (q1 q2 : Earthquake) :
  (forall u, sin pf (- u) = (- sin pf u)%float) ->
  haversineKm pf (toNumber (latitude q1)) (toNumber (longitude q1)) q2
  = haversineKm pf (toNumber (latitude q2)) (toNumber (longitude q2)) q1.
Proof.
  intros Hodd. unfold haversineKm.
  set (lat1 := toNumber (latitude q1)). set (lat2 := toNumber (latitude q2)).
  set (lon1 := toNumber (longitude q1)). set (lon2 := toNumber (longitude q2)).
  pose proof (half_angle_swap pf lat1 lat2 Hodd) as Hlat.
  pose proof (half_angle_swap pf lon1 lon2 Hodd) as Hlon.
  cbv zeta in Hlat, Hlon.
  destruct (square_swap _ _ 0%float Hlat) as [E1 _].
  destruct (square_swap _ _ (cos pf (lat2 * PI / 180) * cos pf (lat1 * PI / 180))%float
              Hlon) as [_ E2].
  rewrite E1, (mul_comm (cos pf (lat1 * PI / 180)) (cos pf (lat2 * PI / 180))), E2.
  reflexivity.
Qed.

Lemma bounded_finite (x c : float) :
  SFfinite (Prim2SF c) = true -> le (abs x) c = true -> SFfinite (Prim2SF x) = true.
Proof.
  unfold le. rewrite leb_spec, abs_spec.
  destruct (Prim2SF x) as [s|s| |s m e]; try reflexivity;
    destruct (Prim2SF c) as [t|t| |t n f]; simpl; discriminate.
Qed.

Lemma haversineKm_same_point (pf : Platform) (lat lon : float) (quake : Earthquake) :
  sin pf 0%float = 0%float ->
  sqrt pf 0%float = 0%float -> sqrt pf 1%float = 1%float ->
  atan2 pf 0%float 1%float = 0%float ->
  latitude quake = Some lat -> longitude quake = Some lon ->
  le (abs lat) 90%float = true -> le (abs lon) 180%float = true ->
  le (abs (cos pf (lat * PI / 180)%float)) 1%float = true ->
  haversineKm pf lat lon quake = 0%float.
Proof.
  intros Hsin Hsqrt0 Hsqrt1 Hatan Hlat Hlon Blat Blon Hcos.
  unfold haversineKm. rewrite Hlat, Hlon. simpl toNumber.
  rewrite (sub_diag lat) by (apply (bounded_finite lat 90%float eq_refl Blat)).
  rewrite (sub_diag lon) by (apply (bounded_finite lon 180%float eq_refl Blon)).
  change (0 * PI / 180 / 2)%float with 0%float. rewrite Hsin.
  destruct (finite_mul_zero _ (small_product_finite _ _ Hcos Hcos))
    as [E|E]; rewrite E.
  - change (0 * 0 + 0 * 0)%float with 0%float.
    rewrite Hsqrt0. change (1 - 0)%float with 1%float. rewrite Hsqrt1, Hatan.
    reflexivity.
  - change (0 * 0 + -0 * 0)%float with 0%float.
    rewrite Hsqrt0. change (1 - 0)%float with 1%float. rewrite Hsqrt1, Hatan.
    reflexivity.
Qed.

(** A platform whose functions agree with [Math] where the filter evaluates
    them for an event at the centre: [Math.sin(0)], [Math.sqrt(0)],
    [Math.sqrt(1)] and [Math.atan2(0, 1)] are [0], [0], [1] and [0], and
    [0x1.b6dea1e76eadep-1] is the cosine of 31 degrees. *)
Definition exactAtCentre : Platform :=
  {| now := 1700000000000%float;
     fetch := fun _ => inl (ErrorObject "Failed to fetch");
     typeErrorMessage := "Cannot read properties of undefined";
     toStr := fun _ => "n";
     sin := fun x => x;
     cos := fun _ => 0x1.b6dea1e76eadep-1%float;
     sqrt := PrimFloat.sqrt;
     atan2 := fun y _ => y |}.

(** An event at the centre of the region whose feed record has no
    magnitude, and one some 70 km away. *)
Definition faintQuake : Earthquake :=
  mkEarthquake "faint" 0%float "Unknown" 1700000000000%float 0%float
               (Some 31%float) (Some 35%float) "".

Definition nearbyQuake : Earthquake :=
  mkEarthquake "near" 5%float "Dead Sea" 1700000000000%float 10%float
               (Some 31.5%float) (Some 35.5%float) "".

(** C7, as stated, fails: the filter has no centre or radius argument, and
    it is not a distance test alone.  Under the real-time strategy with the
    dashboard's floor of 0.1, an event at the centre itself (distance 0,
    well inside 1500 km) whose magnitude defaulted to 0 is excluded. *)
Lemma quake_at_centre_below_floor_is_excluded :
  haversineKm exactAtCentre 31%float 35%float faintQuake = 0%float
  /\ le (haversineKm exactAtCentre 31%float 35%float faintQuake) 1500%float = true
  /\ inRegion exactAtCentre realtimeThreshold faintQuake = false.
Proof. repeat split. Qed.

(** C7 (amended): the filter of the real-time strategy keeps an event if and
    only if the distance computed from the fixed centre (31.0, 35.0) by the
    haversine formula with Earth radius 6371 km, in binary64 arithmetic
    with the engine's [Math] functions, is at most 1500 and the magnitude
    is at least the configured floor; an event at exactly 1500 km is kept
    when its magnitude allows.  The computed distance is symmetric in the
    two points when the engine's sine is odd.  When in addition the sine of
    0 is 0, the square roots of 0 and 1 are 0 and 1 and [atan2(0, 1)] is
    0, the distance of a valid coordinate pair to itself is exactly 0,
    provided the cosine of its latitude lies within [-1, 1]; an event at
    the centre is then kept exactly when its magnitude reaches the
    floor. *)
Theorem region_filter_is_distance_and_magnitude
    (pf : Platform) (minMag : float) (quake other : Earthquake) (lat lon : float) :
  (forall u, sin pf (- u) = (- sin pf u)%float) ->
  sin pf 0%float = 0%float ->
  sqrt pf 0%float = 0%float ->
  sqrt pf 1%float = 1%float ->
  atan2 pf 0%float 1%float = 0%float ->
  le (abs (cos pf (31 * PI / 180)%float)) 1%float = true ->
  (inRegion pf minMag quake = true
   <-> le (haversineKm pf 31%float 35%float quake) 1500%float = true
       /\ ge (magnitude quake) minMag = true)
  /\ (haversineKm pf 31%float 35%float quake = 1500%float ->
      inRegion pf minMag quake = ge (magnitude quake) minMag)
  /\ haversineKm pf (toNumber (latitude other)) (toNumber (longitude other)) quake
     = haversineKm pf (toNumber (latitude quake)) (toNumber (longitude quake)) other
  /\ (latitude quake = Some lat -> longitude quake = Some lon ->
      le (abs lat) 90%float = true -> le (abs lon) 180%float = true ->
      le (abs (cos pf (lat * PI / 180)%float)) 1%float = true ->
      haversineKm pf lat lon quake = 0%float)
  /\ (latitude quake = Some 31%float -> longitude quake = Some 35%float ->
      haversineKm pf 31%float 35%float quake = 0%float
      /\ inRegion pf minMag quake = ge (magnitude quake) minMag).
Proof.
  intros Hodd Hsin Hsqrt0 Hsqrt1 Hatan Hcos.
  split; [|split; [|split; [|split]]].
  - unfold inRegion. apply andb_true_iff.
  - intros Hd. unfold inRegion. rewrite Hd. reflexivity.
  - apply haversineKm_symmetric. exact Hodd.
  - apply haversineKm_same_point; assumption.
  - intros Hlat Hlon.
    assert (Hzero : haversineKm pf 31%float 35%float quake = 0%float)
      by (apply haversineKm_same_point; auto).
    split; [exact Hzero|]. unfold inRegion. rewrite Hzero. reflexivity.
Qed.

(** The amended C7 on a platform that meets the assumptions, at an event at
    the centre and one nearby. *)
Lemma region_filter_is_distance_and_magnitude_witness :
  (inRegion exactAtCentre realtimeThreshold faintQuake = true
   <-> le (haversineKm exactAtCentre 31%float 35%float faintQuake) 1500%float = true
       /\ ge (magnitude faintQuake) realtimeThreshold = true)
  /\ (haversineKm exactAtCentre 31%float 35%float faintQuake = 1500%float ->
      inRegion exactAtCentre realtimeThreshold faintQuake
      = ge (magnitude faintQuake) realtimeThreshold)
  /\ haversineKm exactAtCentre (toNumber (latitude nearbyQuake))
       (toNumber (longitude nearbyQuake)) faintQuake
     = haversineKm exactAtCentre (toNumber (latitude faintQuake))
         (toNumber (longitude faintQuake)) nearbyQuake
  /\ (latitude faintQuake = Some 31%float -> longitude faintQuake = Some 35%float ->
      le (abs 31%float) 90%float = true -> le (abs 35%float) 180%float = true ->
      le (abs (cos exactAtCentre (31 * PI / 180)%float)) 1%float = true ->
      haversineKm exactAtCentre 31%float 35%float faintQuake = 0%float)
  /\ (latitude faintQuake = Some 31%float -> longitude faintQuake = Some 35%float ->
      haversineKm exactAtCentre 31%float 35%float faintQuake = 0%float
      /\ inRegion exactAtCentre realtimeThreshold faintQuake
         = ge (magnitude faintQuake) realtimeThreshold).
Proof.
  apply (region_filter_is_distance_and_magnitude exactAtCentre realtimeThreshold
           faintQuake nearbyQuake 31%float 35%float).
  - intros u. reflexivity.
  - reflexivity.
  - reflexivity.
  - reflexivity.
  - reflexivity.
  - reflexivity.
Defined.

(** *** Further properties of the poller *)

(** The sign of a binary64 difference: [y - x > 0] excludes [x - y > 0]. *)
Lemma binary_round_aux_sign prec emax sx mx ex lx :
  match binary_round_aux prec emax sx mx ex lx with
  | S754_zero s | S754_infinity s | S754_finite s _ _ => s = sx
  | S754_nan => True
  end.
Proof.
  unfold binary_round_aux.
  destruct (shr_fexp prec emax mx ex lx) as [mrs' e'].
  destruct (shr_fexp prec emax _ e' loc_Exact) as [mrs'' e''].
  destruct (shr_m mrs''); [reflexivity| |exact I].
  destruct (Z.leb e'' (emax - prec)); reflexivity.
Qed.

Lemma binary_round_sign prec emax sx mx ex :
  match binary_round prec emax sx mx ex with
  | S754_zero s | S754_infinity s | S754_finite s _ _ => s = sx
  | S754_nan => True
  end.
Proof.
  unfold binary_round.
  destruct (shl_align mx ex _) as [mz ez].
  apply binary_round_aux_sign.
Qed.

Lemma SFsub_positive_antisym prec emax (a b : spec_float) :
  SFltb (S754_zero false) (SFsub prec emax a b) = true ->
  SFltb (S754_zero false) (SFsub prec emax b a) = false.
Proof.
  destruct a as [sa|sa| |sa ma ea], b as [sb|sb| |sb mb eb]; simpl;
    try solve [ repeat match goal with s : bool |- _ => destruct s end;
                simpl; (discriminate || reflexivity) ].
  rewrite (Z.min_comm eb ea).
  set (A := cond_Zopp sa (Z.pos (fst (shl_align ma ea (Z.min ea eb))))).
  set (B := cond_Zopp sb (Z.pos (fst (shl_align mb eb (Z.min ea eb))))).
  unfold binary_normalize.
  destruct (A - B)%Z as [|p|p] eqn:E1; [discriminate| |].
  - intros _. assert (E2 : (B - A = Z.neg p)%Z) by lia. rewrite E2.
    pose proof (binary_round_sign prec emax true p (Z.min ea eb)) as H.
    destruct (binary_round prec emax true p (Z.min ea eb)); subst; reflexivity.
  - pose proof (binary_round_sign prec emax true p (Z.min ea eb)) as H.
    destruct (binary_round prec emax true p (Z.min ea eb)); subst; discriminate.
Qed.

Lemma gt_sub_antisym (x y : float) :
  gt (y - x)%float 0%float = true -> gt (x - y)%float 0%float = false.
Proof.
  unfold gt. rewrite !ltb_spec, !sub_spec. apply SFsub_positive_antisym.
Qed.

(** [a] may stay in front of [b]: the comparator [b.time - a.time] is not
    positive. *)
Definition newestFirst (a b : Earthquake) : Prop :=
  gt (time b - time a)%float 0%float = false.

Lemma insertByTime_Permutation x l : Permutation (insertByTime x l) (x :: l).
Proof.
  induction l as [|y t IH]; [reflexivity|]. simpl.
  destruct (gt (time y - time x)%float 0%float); [|reflexivity].
  rewrite IH. apply perm_swap.
Qed.

Lemma insertByTime_HdRel a x l :
  newestFirst a x -> HdRel newestFirst a l -> HdRel newestFirst a (insertByTime x l).
Proof.
  intros Hax Hal. destruct l as [|y t]; simpl; [constructor; exact Hax|].
  destruct (gt (time y - time x)%float 0%float); constructor.
  - inversion Hal; assumption.
  - exact Hax.
Qed.

Lemma insertByTime_Sorted x l :
  Sorted newestFirst l -> Sorted newestFirst (insertByTime x l).
Proof.
  induction l as [|y t IH]; intros Hs; simpl.
  - repeat constructor.
  - inversion Hs as [|? ? Hst Hhd]; subst.
    destruct (gt (time y - time x)%float 0%float) eqn:E.
    + constructor; [apply IH; exact Hst|].
      apply insertByTime_HdRel; [|exact Hhd].
      apply gt_sub_antisym. exact E.
    + constructor; [exact Hs|]. constructor. exact E.
Qed.

Lemma sortByTimeDesc_Permutation (l : list Earthquake) :
  Permutation (sortByTimeDesc l) l.
Proof.
  unfold sortByTimeDesc. induction l as [|x l IH]; simpl; [constructor|].
  rewrite insertByTime_Permutation. constructor. exact IH.
Qed.

Lemma sortByTimeDesc_Sorted (l : list Earthquake) :
  Sorted newestFirst (sortByTimeDesc l).
Proof.
  unfold sortByTimeDesc. induction l as [|x l IH]; simpl; [constructor|].
  apply insertByTime_Sorted. exact IH.
Qed.

(** X4: sorting keeps every event exactly once and leaves no adjacent pair
    that the comparator [(a, b) => b.time - a.time] would swap. *)
Theorem sortByTimeDesc_sorted_permutation (l : list Earthquake) :
  Permutation (sortByTimeDesc l) l /\ Sorted newestFirst (sortByTimeDesc l).
Proof.
  split; [apply sortByTimeDesc_Permutation|apply sortByTimeDesc_Sorted].
Qed.

Lemma Forall2_source {A B} (R : A -> B -> Prop) (l : list A) (bs : list B) :
  Forall2 R l bs -> forall b, In b bs -> exists a, In a l /\ R a b.
Proof.
  induction 1 as [|a b l bs Hab _ IH]; intros x Hx; [destruct Hx|].
  destruct Hx as [<-|Hx].
  - exists a. split; [left; reflexivity|exact Hab].
  - destruct (IH x Hx) as (a' & Ha' & Hr). exists a'. split; [right|]; assumption.
Qed.

Lemma fetchTry_cases pf opts st :
  (exists l, fetchTry pf opts st
             = (Returned tt, mkHookState l (loading st) (error st)))
  \/ (exists e, fetchTry pf opts st = (Threw e, st)).
Proof.
  unfold fetchTry, fetchData, bind, await, throw, ret, setEarthquakes, modify.
  destruct (fetch pf (requestFor pf opts)) as [e|response]; simpl;
    [right; eexists; reflexivity|].
  destruct (ok response); simpl; [|right; eexists; reflexivity].
  destruct (json response) as [e|[| |features]]; simpl;
    try (right; eexists; reflexivity); try (left; eexists; reflexivity).
  destruct (transform pf features) as [e|out]; simpl;
    [right; eexists; reflexivity|left; eexists; reflexivity].
Qed.

(** X5: whatever the feed does, a poll resolves with loading cleared, and it
    either ends without an error or leaves the previous list in place with
    an error string: it never reports an error and replaces the list. *)
Theorem poll_replaces_list_or_reports_error
    (pf : Platform) (opts : Options) (st : HookState) :
  let '(outcome, st') := fetchEarthquakesFn pf opts st in
  outcome = Returned tt
  /\ loading st' = false
  /\ (error st' = None
      \/ (earthquakes st' = earthquakes st
          /\ exists message, error st' = Some message)).
Proof.
  unfold fetchEarthquakesFn, bind, tryFinally, tryCatch, setLoading, setError,
    modify. simpl.
  destruct (fetchTry_cases pf opts
              (mkHookState (earthquakes st) true None)) as [[l H]|[e H]];
    rewrite H; simpl.
  - repeat split. left. reflexivity.
  - repeat split. right. split; [reflexivity|eexists; reflexivity].
Qed.

(** The events a successful poll keeps, before sorting: under the real-time
    strategy those inside the region and above the magnitude floor, under
    the query strategy all of them. *)
Definition kept (pf : Platform) (opts : Options) (out : list Earthquake)
  : list Earthquake :=
  if le (minMagnitude opts) realtimeThreshold
  then List.filter (inRegion pf (minMagnitude opts)) out
  else out.

(** X6: when the feed answers with a feature collection, the poll clears
    the error and lists, most recent first, exactly the normalised
    well-formed features that the strategy keeps: each listed event comes
    from a well-formed feature, the real-time strategy lists only events
    that pass the region filter, and the query strategy drops none. *)
Theorem successful_poll_lists_kept_events
    (pf : Platform) (opts : Options) (st : HookState)
    (response : Response) (features : list (option Raw.Feature))
    (out : list Earthquake) :
  fetch pf (requestFor pf opts) = inr response ->
  ok response = true ->
  json response = inr (DataFeatures features) ->
  transform pf features = inr out ->
  let st' := snd (fetchEarthquakesFn pf opts st) in
  error st' = None
  /\ loading st' = false
  /\ Permutation (earthquakes st') (kept pf opts out)
  /\ Sorted newestFirst (earthquakes st')
  /\ (forall e, In e (earthquakes st') ->
        exists f, In f features /\ wellFormed f = true
                  /\ toEarthquake pf f = inr e)
  /\ (le (minMagnitude opts) realtimeThreshold = true ->
      forall e, In e (earthquakes st') -> inRegion pf (minMagnitude opts) e = true)
  /\ (le (minMagnitude opts) realtimeThreshold = false ->
      length (earthquakes st') = length (List.filter wellFormed features)).
Proof.
  intros Hfetch Hok Hjson Hout. cbv zeta.
  assert (Hst : snd (fetchEarthquakesFn pf opts st)
                = mkHookState (sortByTimeDesc (kept pf opts out)) false None).
  { unfold fetchEarthquakesFn, fetchTry, fetchData, bind, tryFinally, tryCatch,
      await, throw, ret, setLoading, setError, setEarthquakes, modify, kept.
    simpl. rewrite Hfetch. simpl. rewrite Hok. simpl. rewrite Hjson. simpl.
    rewrite Hout. reflexivity. }
  rewrite Hst. simpl.
  pose proof (sortByTimeDesc_Permutation (kept pf opts out)) as Hp.
  pose proof (sortByTimeDesc_Sorted (kept pf opts out)) as Hs.
  destruct (mapThrowing_total (toEarthquake pf) (List.filter wellFormed features))
    as (bs & Hbs & Hall).
  { intros a Ha. apply filter_In in Ha. apply wellFormed_toEarthquake. tauto. }
  unfold transform in Hout. rewrite Hbs in Hout. injection Hout as <-.
  pose proof (Forall2_source _ _ _ Hall) as Hsrc.
  assert (Hkept : forall e, In e (kept pf opts bs) -> In e bs).
  { intros e. unfold kept. destruct (le _ _); [|tauto].
    rewrite filter_In. tauto. }
  repeat split; try assumption.
  - intros e He. apply (Permutation_in _ Hp), Hkept, Hsrc in He.
    destruct He as (f & Hf & Hfe). apply filter_In in Hf.
    exists f. tauto.
  - intros Hrt e He. apply (Permutation_in _ Hp) in He.
    unfold kept in He. rewrite Hrt in He. apply filter_In in He. tauto.
  - intros Hq. rewrite (Permutation_length Hp). unfold kept. rewrite Hq.
    symmetry. apply (Forall2_length _ _ _ Hall).
Qed.

Definition answeringPlatform : Platform :=
  {| now := 1700000000000%float;
     fetch := fun _ =>
       inr (mkResponse true "OK"
              (inr (DataFeatures [goodFeature; None; shortFeature])));
     typeErrorMessage := "Cannot read properties of undefined";
     toStr := fun _ => "n";
     sin := fun x => x;
     cos := fun x => x;
     sqrt := PrimFloat.sqrt;
     atan2 := fun y x => y |}.

Definition answeredQuakes : list Earthquake :=
  [ mkEarthquake "good" 0%float "Unknown" 1700000000000%float 10%float
                 (Some 31.5%float) (Some 35.5%float) "";
    mkEarthquake "short" 0%float "Unknown" 1700000000000%float 0%float
                 None None "" ].

(** X6 at a feed of three entries, one of them null, under the query
    strategy. *)
Lemma successful_poll_lists_kept_events_witness :
  let st' := snd (fetchEarthquakesFn answeringPlatform defaultOptions lastGood) in
  error st' = None
  /\ loading st' = false
  /\ Permutation (earthquakes st') (kept answeringPlatform defaultOptions answeredQuakes)
  /\ Sorted newestFirst (earthquakes st')
  /\ (forall e, In e (earthquakes st') ->
        exists f, In f [goodFeature; None; shortFeature] /\ wellFormed f = true
                  /\ toEarthquake answeringPlatform f = inr e)
  /\ (le (minMagnitude defaultOptions) realtimeThreshold = true ->
      forall e, In e (earthquakes st') ->
        inRegion answeringPlatform (minMagnitude defaultOptions) e = true)
  /\ (le (minMagnitude defaultOptions) realtimeThreshold = false ->
      length (earthquakes st')
      = length (List.filter wellFormed [goodFeature; None; shortFeature])).
Proof.
  apply (successful_poll_lists_kept_events answeringPlatform defaultOptions
           lastGood
           (mkResponse true "OK"
              (inr (DataFeatures [goodFeature; None; shortFeature])))
           [goodFeature; None; shortFeature] answeredQuakes); reflexivity.
Defined.

End UseEarthquakes.

(** ** The alert tone ([playAlertSound], [activateAudioContext]) *)
Module AudioAlert.
Import Js Exn.

(** [AudioContext.state] *)
Inductive ContextState : Type :=
  | Suspended
  | Running
  | Closed.

Definition isSuspended (s : ContextState) : bool :=
  match s with
  | Suspended => true
  | _ => false
  end.

Definition isRunning (s : ContextState) : bool :=
  match s with
  | Running => true
  | _ => false
  end.

(** The calls into the audio platform that can fail. *)
Inductive Op : Type :=
  | NewAudioContext
  | Resume
  | Sleep (ms : Z)
  | CreateBuffer
  | GetChannelData
  | CreateBufferSource
  | Connect
  | Start
  | AudioBufferToWav
  | NewBlob
  | CreateObjectURL
  | NewAudio
  | AudioPlay
  | PlayPromise
  | AddEventListener
  | SetTimeout (ms : Z).

(** How the platform answers one call: it throws (or the awaited promise
    rejects) with [failure], or it succeeds; [stateAfter] is the state of the
    context once a constructor, a resume or a timer wait has completed;
    [undefinedResult] tells whether [audio.play()] returned [undefined]. *)
Record Answer : Type := mkAnswer {
  failure : option Thrown;
  stateAfter : ContextState;
  undefinedResult : bool
}.

(** The platform's behaviour: the answer to the [n]-th call, given which
    operation it is. *)
Definition Oracle : Type := nat -> Op -> Answer.

(** What has been made audible. *)
Inductive Tone : Type :=
  | Beep800WebAudio
  | Beep800Html5
  | Alert440and880.

(** The module-level variables of [useNotifications.ts] together with what
    the platform has been asked so far. *)
Record World : Type := mkWorld {
  sharedAudioContext : option ContextState;
  audioContextResumed : bool;
  calls : nat;
  played : list Tone;
  timers : list Z;
  console : list string
}.

Section Player.

Variable oracle : Oracle.

(** [/Android|webOS|iPhone|.../i.test(navigator.userAgent)] *)
Variable isMobile : bool.

Definition call (op : Op) : M World Answer :=
  fun w =>
    let a := oracle (calls w) op in
    let w' := mkWorld (sharedAudioContext w) (audioContextResumed w)
                      (S (calls w)) (played w) (timers w) (console w) in
    match failure a with
    | Some e => (Threw e, w')
    | None => (Returned a, w')
    end.

Definition warn (message : string) : M World unit :=
  modify (fun w => mkWorld (sharedAudioContext w) (audioContextResumed w)
                           (calls w) (played w) (timers w)
                           (message :: console w)).

Definition setContext (s : ContextState) : M World unit :=
  modify (fun w => mkWorld (Some s) (audioContextResumed w)
                           (calls w) (played w) (timers w) (console w)).

Definition setResumed : M World unit :=
  modify (fun w => mkWorld (sharedAudioContext w) true
                           (calls w) (played w) (timers w) (console w)).

Definition audible (t : Tone) : M World unit :=
  modify (fun w => mkWorld (sharedAudioContext w) (audioContextResumed w)
                           (calls w) (t :: played w) (timers w) (console w)).

Definition schedule (ms : Z) : M World unit :=
  (_ <- call (SetTimeout ms) ;;
   modify (fun w => mkWorld (sharedAudioContext w) (audioContextResumed w)
                            (calls w) (played w) (ms :: timers w) (console w)))%js.

(** [sharedAudioContext.state]; reading it from [null] throws. *)
Definition contextState : M World ContextState :=
  (w <- get ;;
   match sharedAudioContext w with
   | Some s => ret s
   | None => throw (ErrorObject "Cannot read properties of null")
   end)%js.

(** [if (!sharedAudioContext) sharedAudioContext = new AudioContext()] *)
Definition ensureContext : M World unit :=
  (w <- get ;;
   match sharedAudioContext w with
   | Some _ => ret tt
   | None => a <- call NewAudioContext ;; setContext (stateAfter a)
   end)%js.

(** [await sharedAudioContext.resume()] *)
Definition resume : M World unit :=
  (a <- call Resume ;; setContext (stateAfter a))%js.

(** [await new Promise(resolve => setTimeout(resolve, ms))]; the context may
    change state while the function is suspended. *)
Definition sleep (ms : Z) : M World unit :=
  (a <- call (Sleep ms) ;;
   w <- get ;;
   match sharedAudioContext w with
   | Some _ => setContext (stateAfter a)
   | None => ret tt
   end)%js.

(** [createBuffer], fill the samples, [createBufferSource], [connect],
    [start(0)] on the shared context. *)
Definition startTone (t : Tone) : M World unit :=
  (_ <- call CreateBuffer ;;
   _ <- call GetChannelData ;;
   _ <- call CreateBufferSource ;;
   _ <- call Connect ;;
   _ <- call Start ;;
   audible t)%js.

(** The first inner [try] of the mobile branch; its value is
    [webAudioPlayed]. *)
Definition mobileWebAudio : M World bool :=
  tryCatch
    (ensureContext ;;
     s <- contextState ;;
     when (isSuspended s)
          (tryCatch resume
             (fun _ => warn "Mobile: Could not resume AudioContext")) ;;
     s <- contextState ;;
     if isRunning s
     then startTone Beep800WebAudio ;; ret true
     else ret false)%js
    (fun _ => warn "Mobile: Web Audio API failed" ;; ret false)%js.

(** The second inner [try] of the mobile branch; its value is
    [html5AudioPlayed]. *)
Definition mobileHtml5Audio : M World bool :=
  tryCatch
    (_ <- call NewAudioContext ;;
     _ <- call CreateBuffer ;;
     _ <- call GetChannelData ;;
     _ <- call AudioBufferToWav ;;
     _ <- call NewBlob ;;
     _ <- call CreateObjectURL ;;
     _ <- call NewAudio ;;
     p <- call AudioPlay ;;
     if undefinedResult p
     then ret false
     else
       _ <- call PlayPromise ;;
       audible Beep800Html5 ;;
       _ <- call AddEventListener ;;
       ret true)%js
    (fun _ => warn "Mobile: HTML5 Audio fallback failed" ;; ret false)%js.

Definition mobileBranch : M World unit :=
  (webAudioPlayed <- mobileWebAudio ;;
   html5AudioPlayed <-
     (if negb webAudioPlayed then mobileHtml5Audio else ret false) ;;
   ret tt)%js.

(** The [try]/[catch] around the resume of the desktop branch; [true] when
    the [catch] block returned from the function. *)
Definition desktopResume : M World bool :=
  tryCatch
    (resume ;;
     setResumed ;;
     s <- contextState ;;
     when (isSuspended s) (sleep 100 ;; resume) ;;
     ret false)%js
    (fun _ => warn "Could not resume AudioContext" ;; ret true)%js.

Definition desktopBranch : M World unit :=
  (ensureContext ;;
   s <- contextState ;;
   gaveUp <- (if isSuspended s then desktopResume else ret false) ;;
   if gaveUp then ret tt
   else
     s <- contextState ;;
     if negb (isRunning s)
     then warn "AudioContext not running"
     else
       startTone Alert440and880 ;;
       schedule 600 ;;
       schedule 1200)%js.

(** [export async function playAlertSound()] *)
Definition playAlertSound : M World unit :=
  tryCatch
    (if isMobile then mobileBranch else desktopBranch)
    (fun _ => warn "Could not play alert sound").

(** The callback of the two replay timers; it runs in a task of its own. *)
Definition replay : M World unit :=
  (w <- get ;;
   match sharedAudioContext w with
   | Some Running =>
       _ <- call CreateBufferSource ;;
       _ <- call Connect ;;
       _ <- call Start ;;
       audible Alert440and880
   | _ => ret tt
   end)%js.

(** [export async function activateAudioContext()], in a browser. *)
Definition activateAudioContext : M World unit :=
  tryCatch
    (ensureContext ;;
     s <- contextState ;;
     if isSuspended s then
       resume ;;
       setResumed ;;
       s <- contextState ;;
       when (isMobile && isSuspended s) (sleep 100 ;; resume)
     else
       when (isRunning s) setResumed)%js
    (fun _ => warn "Could not initialize/resume AudioContext").

End Player.

(** A platform on which every call fails with [e]. *)
Definition allFail (e : Thrown) : Oracle :=
  fun _ _ => mkAnswer (Some e) Suspended false.

(** A platform on which every call succeeds and the context runs. *)
Definition allWork : Oracle :=
  fun _ _ => mkAnswer None Running false.

Definition freshWorld : World := mkWorld None false 0 [] [] [].

(** *** The player never rejects *)

Lemma warn_returns message (w : World) : returns (warn message) w.
Proof. exists tt. reflexivity. Qed.

Lemma activateAudioContext_resolves oracle isMobile (w : World) :
  fst (activateAudioContext oracle isMobile w) = Returned tt.
Proof.
  destruct (tryCatch_returns
              (ensureContext oracle ;;
               s <- contextState ;;
               if isSuspended s then
                 resume oracle ;;
                 setResumed ;;
                 s <- contextState ;;
                 when (isMobile && isSuspended s) (sleep oracle 100 ;; resume oracle)
               else
                 when (isRunning s) setResumed)%js
              (fun _ => warn "Could not initialize/resume AudioContext") w)
    as [[] H]; [intros; apply warn_returns|exact H].
Qed.

(** With every platform call failing, neither tier of the mobile branch and
    no step of the desktop branch makes a sound. *)
Lemma playAlertSound_silent_when_all_fail e isMobile (w : World) :
  played (snd (playAlertSound (allFail e) isMobile w)) = played w.
Proof.
  destruct w as [[[| |]|] resumed n tones pending out], isMobile; reflexivity.
Qed.

(** C3: whatever the platform answers to each call (construction, resume,
    direct playback, file-container playback, each failing or not),
    [playAlertSound] returns normally to its caller; when every call fails
    it returns with no sound produced. *)
Theorem playAlertSound_always_resolves
    (oracle : Oracle) (isMobile : bool) (w : World) :
  fst (playAlertSound oracle isMobile w) = Returned tt
  /\ forall e,
       fst (playAlertSound (allFail e) isMobile w) = Returned tt
       /\ played (snd (playAlertSound (allFail e) isMobile w)) = played w.
Proof.
  assert (H : forall o, fst (playAlertSound o isMobile w) = Returned tt).
  { intros o.
    destruct (tryCatch_returns
                (if isMobile then mobileBranch o else desktopBranch o)
                (fun _ => warn "Could not play alert sound") w) as [[] H].
    - intros; apply warn_returns.
    - exact H. }
  split; [apply H|].
  intros e. split; [apply H|apply playAlertSound_silent_when_all_fail].
Qed.

(** *** Further properties of the player *)

(** Case analysis on the platform's answers, call by call. *)
Ltac reduce_player :=
  cbv beta iota zeta
      delta [sharedAudioContext audioContextResumed calls played timers console
             fst snd isSuspended isRunning negb andb].

Ltac unfold_player :=
  unfold playAlertSound, activateAudioContext, mobileBranch, mobileWebAudio,
    mobileHtml5Audio, desktopBranch, desktopResume, ensureContext,
    contextState, resume, sleep, startTone, schedule, audible, call, warn,
    setContext, setResumed, when, tryCatch, bind, ret, throw, get, modify;
  reduce_player.

Ltac answer_at i :=
  repeat match goal with
  | |- context [failure (?o i ?op)] =>
      let E := fresh "Efail" in destruct (failure (o i op)) eqn:E; reduce_player
  | |- context [undefinedResult (?o i ?op)] =>
      let E := fresh "Eundef" in
      destruct (undefinedResult (o i op)) eqn:E; reduce_player
  | |- context [match stateAfter (?o i ?op) with _ => _ end] =>
      let E := fresh "Estate" in destruct (stateAfter (o i op)) eqn:E; reduce_player
  end.

Ltac run_from i fuel :=
  lazymatch fuel with
  | O => idtac
  | S ?f => answer_at i; run_from (S i) f
  end.


Lemma desktopBranch_summary (oracle : Oracle) (w : World) :
  let w' := snd (desktopBranch oracle w) in
  (played w' = played w \/ played w' = Alert440and880 :: played w)
  /\ (played w' = played w -> timers w' = timers w)
  /\ (sharedAudioContext w <> None -> sharedAudioContext w' <> None).
Proof.
  destruct w as [[[| |]|] resumed n tones pending out];
    cbv zeta; unfold_player; run_from n 12; simpl;
    repeat split; intros; try discriminate; try congruence; auto;
    match goal with
    | H : ?t :: ?l = ?l |- _ =>
        apply (f_equal (@length _)) in H; simpl in H; lia
    end.
Qed.

Lemma mobileWebAudio_summary (oracle : Oracle) (w : World) :
  let '(o, w') := mobileWebAudio oracle w in
  timers w' = timers w
  /\ (sharedAudioContext w <> None -> sharedAudioContext w' <> None)
  /\ ((o = Returned true /\ played w' = Beep800WebAudio :: played w)
      \/ (o = Returned false /\ played w' = played w)).
Proof.
  destruct w as [[[| |]|] resumed n tones pending out];
    cbv zeta; unfold_player; run_from n 8; simpl;
    repeat split; intros; try discriminate; try congruence; auto.
Qed.

Lemma mobileHtml5Audio_summary (oracle : Oracle) (w : World) :
  let '(o, w') := mobileHtml5Audio oracle w in
  (exists b, o = Returned b)
  /\ timers w' = timers w
  /\ sharedAudioContext w' = sharedAudioContext w
  /\ (played w' = played w \/ played w' = Beep800Html5 :: played w).
Proof.
  destruct w as [ctx resumed n tones pending out];
    cbv zeta; unfold_player; run_from n 12; simpl;
    repeat split; eauto.
Qed.

Lemma mobileBranch_summary (oracle : Oracle) (w : World) :
  let '(o, w') := mobileBranch oracle w in
  o = Returned tt
  /\ timers w' = timers w
  /\ (sharedAudioContext w <> None -> sharedAudioContext w' <> None)
  /\ (played w' = played w
      \/ played w' = Beep800WebAudio :: played w
      \/ played w' = Beep800Html5 :: played w).
Proof.
  unfold mobileBranch, bind.
  pose proof (mobileWebAudio_summary oracle w) as Hweb.
  destruct (mobileWebAudio oracle w) as [o1 w1].
  destruct Hweb as (Ht & Hc & [[-> Hp]|[-> Hp]]); simpl.
  - unfold ret. simpl. repeat split; auto.
  - pose proof (mobileHtml5Audio_summary oracle w1) as Hh.
    destruct (mobileHtml5Audio oracle w1) as [o2 w2].
    destruct Hh as ([b ->] & Ht2 & Hc2 & Hp2). unfold ret. simpl.
    split; [reflexivity|]. split; [congruence|].
    split; [rewrite Hc2; exact Hc|].
    destruct Hp2 as [Hp2|Hp2]; rewrite Hp2, Hp; auto.
Qed.

(** X7: one call of [playAlertSound] makes at most one tone audible and
    never discards the shared context.  On a mobile device the tone is the
    800 Hz beep, through Web Audio or else through the media element, and
    no replay is scheduled; elsewhere it is the two-tone alert, and replay
    timers are scheduled only after that tone has started. *)
Theorem playAlertSound_one_tone
    (oracle : Oracle) (isMobile : bool) (w : World) :
  let w' := snd (playAlertSound oracle isMobile w) in
  (played w' = played w
   \/ played w'
      = (if isMobile then Beep800WebAudio else Alert440and880) :: played w
   \/ (isMobile = true /\ played w' = Beep800Html5 :: played w))
  /\ (isMobile = true -> timers w' = timers w)
  /\ (played w' = played w -> timers w' = timers w)
  /\ (sharedAudioContext w <> None -> sharedAudioContext w' <> None).
Proof.
  cbv zeta. unfold playAlertSound, tryCatch. destruct isMobile.
  - pose proof (mobileBranch_summary oracle w) as H.
    destruct (mobileBranch oracle w) as [o w1].
    destruct H as (-> & Ht & Hc & Hp). simpl.
    repeat split; auto. destruct Hp as [Hp|[Hp|Hp]]; auto.
  - pose proof (desktopBranch_summary oracle w) as H. cbv zeta in H.
    destruct (desktopBranch oracle w) as [[[]|e] w1]; simpl in *;
      destruct H as (Hp & Ht & Hc);
      (repeat split; [destruct Hp; auto|discriminate|exact Ht|exact Hc]).
Qed.

(** X8: [activateAudioContext] always resolves, makes at most four platform
    calls, and produces neither sound nor timer.  On a context that is
    already running it calls nothing and only records the activation; when
    the constructor throws the shared context stays [null]. *)
Theorem activateAudioContext_is_quiet
    (oracle : Oracle) (isMobile : bool) (w : World) :
  let '(outcome, w') := activateAudioContext oracle isMobile w in
  outcome = Returned tt
  /\ played w' = played w
  /\ timers w' = timers w
  /\ calls w <= calls w' <= calls w + 4
  /\ (sharedAudioContext w = Some Running ->
      calls w' = calls w /\ audioContextResumed w' = true
      /\ sharedAudioContext w' = Some Running)
  /\ (sharedAudioContext w = None ->
      failure (oracle (calls w) NewAudioContext) <> None ->
      sharedAudioContext w' = None).
Proof.
  destruct w as [[[| |]|] resumed n tones pending out], isMobile;
    unfold_player; run_from n 5; simpl;
    repeat split; intros; try discriminate; try congruence; auto; try lia.
Qed.

(** A platform on which no call fails. *)
Definition neverFails (oracle : Oracle) : Prop :=
  forall n op, failure (oracle n op) = None.

Ltac assume_at Hok Hst i :=
  repeat match goal with
  | |- context [failure (?o i ?op)] => rewrite (Hok i op); reduce_player
  | |- context [match stateAfter (?o i ?op) with _ => _ end] =>
      rewrite (Hst i op); reduce_player
  end.

Ltac assume_from Hok Hst i fuel :=
  lazymatch fuel with
  | O => idtac
  | S ?f => assume_at Hok Hst i; assume_from Hok Hst (S i) f
  end.

(** X9: on a platform where no call fails and the context is running after
    construction or resume, a context that is not closed yields the tone:
    on a desktop the two-tone alert with its two replays at 600 ms and
    1200 ms, on a mobile device the single beep through Web Audio. *)
Theorem playAlertSound_plays_on_healthy_platform
    (oracle : Oracle) (isMobile : bool) (w : World) :
  neverFails oracle ->
  (forall n op, stateAfter (oracle n op) = Running) ->
  sharedAudioContext w <> Some Closed ->
  let w' := snd (playAlertSound oracle isMobile w) in
  sharedAudioContext w' = Some Running
  /\ if isMobile
     then played w' = Beep800WebAudio :: played w /\ timers w' = timers w
     else played w' = Alert440and880 :: played w
          /\ timers w' = 1200%Z :: 600%Z :: timers w.
Proof.
  intros Hok Hrun Hopen.
  destruct w as [[[| |]|] resumed n tones pending out], isMobile;
    try (exfalso; apply Hopen; reflexivity);
    cbv zeta; unfold_player; assume_from Hok Hrun n 12; simpl;
    rewrite ?Hrun; repeat split.
Qed.

Lemma playAlertSound_plays_on_healthy_platform_witness :
  let w' := snd (playAlertSound allWork false freshWorld) in
  sharedAudioContext w' = Some Running
  /\ played w' = Alert440and880 :: played freshWorld
  /\ timers w' = 1200%Z :: 600%Z :: timers freshWorld.
Proof.
  apply (playAlertSound_plays_on_healthy_platform allWork false freshWorld).
  - intros n op. reflexivity.
  - intros n op. reflexivity.
  - discriminate.
Defined.

Ltac blocked_at Hok Hsusp Hpromise i :=
  repeat match goal with
  | |- context [failure (?o i ?op)] => rewrite (Hok i op); reduce_player
  | |- context [match stateAfter (?o i Resume) with _ => _ end] =>
      rewrite (Hsusp i); reduce_player
  | |- context [undefinedResult (?o i AudioPlay)] =>
      rewrite (Hpromise i); reduce_player
  end.

Ltac blocked_from Hok Hsusp Hpromise i fuel :=
  lazymatch fuel with
  | O => idtac
  | S ?f => blocked_at Hok Hsusp Hpromise i;
            blocked_from Hok Hsusp Hpromise (S i) f
  end.

(** X10: the file-container tier.  On a mobile device whose context stays
    suspended however often it is resumed, with every call succeeding and
    [audio.play()] returning a promise, the beep is played through the
    media element, and only through it. *)
Theorem mobile_falls_back_to_media_element (oracle : Oracle) (w : World) :
  neverFails oracle ->
  (forall n, stateAfter (oracle n Resume) = Suspended) ->
  (forall n, undefinedResult (oracle n AudioPlay) = false) ->
  sharedAudioContext w = Some Suspended ->
  let w' := snd (playAlertSound oracle true w) in
  played w' = Beep800Html5 :: played w
  /\ sharedAudioContext w' = Some Suspended
  /\ timers w' = timers w.
Proof.
  intros Hok Hsusp Hpromise Hctx.
  destruct w as [ctx resumed n tones pending out]. simpl in Hctx. subst ctx.
  cbv zeta. unfold_player. blocked_from Hok Hsusp Hpromise n 12. simpl.
  rewrite ?Hsusp. repeat split.
Qed.

(** A platform that never lets the context run but plays media elements. *)
Definition autoplayBlocked : Oracle :=
  fun _ _ => mkAnswer None Suspended false.

Lemma mobile_falls_back_to_media_element_witness :
  let w := mkWorld (Some Suspended) false 0 [] [] [] in
  let w' := snd (playAlertSound autoplayBlocked true w) in
  played w' = Beep800Html5 :: played w
  /\ sharedAudioContext w' = Some Suspended
  /\ timers w' = timers w.
Proof.
  apply (mobile_falls_back_to_media_element autoplayBlocked
           (mkWorld (Some Suspended) false 0 [] [] [])).
  - intros n op. reflexivity.
  - intros n. reflexivity.
  - intros n. reflexivity.
  - reflexivity.
Defined.

End AudioAlert.

(** ** Change detection and local urgent alerts ([useNotifications]) *)
Module UseNotifications.
Import Js Surface.

(** The hook's inputs on one run of its second effect; [notificationThrows]
    tells whether [new Notification] throws for a given tag. *)
Record Inputs : Type := mkInputs {
  enabled : bool;
  language : Language;
  permission : option NotificationPermission;
  notificationThrows : string -> bool
}.

Section Effect.

(** [Number.prototype.toFixed(1)], provided by the engine. *)
Variable toFixed1 : float -> string.

Definition urgentTitle (l : Language) (quake : Earthquake) : string :=
  if is_ru l
  then "⚠️ СРОЧНО: Землетрясение M" ++ toFixed1 (magnitude quake)
  else "⚠️ URGENT: Earthquake M" ++ toFixed1 (magnitude quake).

Definition urgentBody (l : Language) (quake : Earthquake) : string :=
  if is_ru l
  then str_or (Some (place quake)) "Unknown location" ++ " | Глубина: "
       ++ toFixed1 (depth quake) ++ " km"
  else str_or (Some (place quake)) "Unknown location" ++ " | Depth: "
       ++ toFixed1 (depth quake) ++ " km".

(** [new Set(earthquakes.map(q => q.id))] *)
Definition currentIds (earthquakes : list Earthquake) : gset string :=
  list_to_set (map id earthquakes).

(** [earthquakes.filter(q => !previousEarthquakesRef.current.has(q.id))] *)
Definition newEarthquakes (previous : gset string) (earthquakes : list Earthquake)
  : list Earthquake :=
  List.filter (fun q => bool_decide (id q ∉ previous)) earthquakes.

(** The body of [newEarthquakes.forEach]: the sound is requested first, then
    the notification is constructed; when the constructor throws the rest of
    the [try] block is skipped and the loop goes on. *)
Definition alertQuake (inp : Inputs) (quake : Earthquake) : list Effect :=
  if gt (magnitude quake) 4.5%float then
    PlayAlertSound
    :: NewNotification (urgentTitle (language inp) quake)
                       (urgentBody (language inp) quake) (id quake) true
    :: (if notificationThrows inp (id quake) then []
        else [SetTimeoutClose (id quake) 15000%Z; LogSent (id quake)])
  else [].

(** The guard [!enabled || !earthquakes.length || permission !== 'granted']. *)
Definition skipsPoll (inp : Inputs) (earthquakes : list Earthquake) : bool :=
  (negb (enabled inp) || Nat.eqb (length earthquakes) 0
   || negb (is_granted (permission inp)))%bool.

(** The second [useEffect] of [useNotifications]: the guard returns before
    anything is read or written; otherwise every new urgent quake is alerted
    and the ref is overwritten with the identifiers of this poll. *)
Definition monitorEffect (inp : Inputs) (earthquakes : list Earthquake)
    (previousEarthquakesRef : gset string) : list Effect * gset string :=
  if skipsPoll inp earthquakes
  then ([], previousEarthquakesRef)
  else
    (flat_map (alertQuake inp) (newEarthquakes previousEarthquakesRef earthquakes),
     currentIds earthquakes).

(** The effect run once per poll result, from the given ref contents. *)
Fixpoint runPolls (inp : Inputs) (polls : list (list Earthquake))
    (previousEarthquakesRef : gset string) : list Effect * gset string :=
  match polls with
  | [] => ([], previousEarthquakesRef)
  | earthquakes :: rest =>
      let '(effs, seen) := monitorEffect inp earthquakes previousEarthquakesRef in
      let '(effs', seen') := runPolls inp rest seen in
      ((effs ++ effs')%list, seen')
  end.

End Effect.

(** *** Sample data: the spec's end-to-end example and its neighbours.
    [0x1.2666666666666p+2] is the binary64 value of the literal [4.6]. *)
Definition quake46 (i : string) : Earthquake :=
  mkEarthquake i 0x1.2666666666666p+2%float "Dead Sea" 1700000000000%float
               10%float (Some 31.5%float) (Some 35.5%float) "".

Definition quake20 (i : string) : Earthquake :=
  mkEarthquake i 2%float "Aqaba" 1700000001000%float
               5%float (Some 29.5%float) (Some 35%float) "".

Definition grantedInputs : Inputs := mkInputs true En (Some Granted) (fun _ => false).

Definition pendingInputs : Inputs := mkInputs true En (Some Default) (fun _ => false).

(** A stand-in for [toFixed(1)] on the sample data. *)
Definition showTenths (x : float) : string := "4.6".

(** *** Counting alerts *)

Lemma alertsFor_app tag (e1 e2 : list Effect) :
  alertsFor tag (e1 ++ e2) = alertsFor tag e1 + alertsFor tag e2.
Proof.
  unfold alertsFor. rewrite List.filter_app, length_app. reflexivity.
Qed.

Section Counting.

Variable toFixed1 : float -> string.
Variable inp : Inputs.

(** Whether [quake] is alerted under identifier [tag]. *)
Definition urgentAs (tag : string) (quake : Earthquake) : bool :=
  (gt (magnitude quake) 4.5%float && bool_decide (id quake = tag))%bool.

Lemma alertsFor_alertQuake tag quake :
  alertsFor tag (alertQuake toFixed1 inp quake)
  = if urgentAs tag quake then 1 else 0.
Proof.
  unfold alertsFor, alertQuake, urgentAs.
  destruct (gt (magnitude quake) 4.5%float); simpl; [|reflexivity].
  destruct (bool_decide (id quake = tag)), (notificationThrows inp (id quake));
    reflexivity.
Qed.

Lemma alertsFor_flat_map tag (l : list Earthquake) :
  alertsFor tag (flat_map (alertQuake toFixed1 inp) l)
  = length (List.filter (urgentAs tag) l).
Proof.
  induction l as [|q l IH]; [reflexivity|].
  simpl. rewrite alertsFor_app, alertsFor_alertQuake, IH.
  destruct (urgentAs tag q); reflexivity.
Qed.

End Counting.

Lemma filter_none {A} (f : A -> bool) (l : list A) :
  (forall x, In x l -> f x = false) -> List.filter f l = [].
Proof.
  induction l as [|a l IH]; intros H; [reflexivity|].
  simpl. rewrite (H a (or_introl eq_refl)). apply IH.
  intros x Hx. apply H. right. exact Hx.
Qed.

Lemma filter_both {A} (f g : A -> bool) (l : list A) :
  List.filter f (List.filter g l) = List.filter (fun x => (f x && g x)%bool) l.
Proof.
  induction l as [|a l IH]; [reflexivity|].
  simpl. destruct (g a) eqn:Hg, (f a) eqn:Hf; simpl;
    rewrite ?Hg, ?Hf, IH; reflexivity.
Qed.

Lemma filter_singleton {A} (f : A -> bool) (l : list A) (x : A) :
  In x l -> f x = true -> length (List.filter f l) = 1 -> List.filter f l = [x].
Proof.
  intros Hin Hf Hlen.
  assert (Hx : In x (List.filter f l)) by (apply filter_In; split; assumption).
  destruct (List.filter f l) as [|a [|b t]]; simpl in *; try discriminate.
  destruct Hx as [->|[]]. reflexivity.
Qed.

Lemma elem_of_currentIds (i : string) (earthquakes : list Earthquake) :
  i ∈ currentIds earthquakes <-> exists q, In q earthquakes /\ id q = i.
Proof.
  unfold currentIds. rewrite elem_of_list_to_set, list_elem_of_In, in_map_iff.
  split; intros (q & H1 & H2); exists q; tauto.
Qed.

(** *** Change detection *)

(** C1, as stated, fails: the ref is overwritten, not merged.  With
    ["eq1"] already seen, a poll that delivers only ["eq2"] leaves a set
    without ["eq1"]; a two-element set shrinks to one element; and while
    permission is still pending the poll's identifiers are not recorded. *)
Lemma seen_set_is_not_a_union :
  snd (monitorEffect showTenths grantedInputs [quake20 "eq2"] {["eq1"]})
    <> {["eq1"]} ∪ currentIds [quake20 "eq2"]
  /\ size (snd (monitorEffect showTenths grantedInputs [quake20 "eq3"]
                              ({["eq1"]} ∪ {["eq2"]})))
     < size (({["eq1"]} ∪ {["eq2"]}) : gset string)
  /\ snd (monitorEffect showTenths pendingInputs [quake20 "eq1"] ∅)
     <> ∅ ∪ currentIds [quake20 "eq1"].
Proof.
  split; [|split].
  - intros H.
    apply (f_equal (fun s : gset string => bool_decide ("eq1" ∈ s))) in H.
    vm_compute in H. discriminate.
  - vm_compute. lia.
  - intros H.
    apply (f_equal (fun s : gset string => bool_decide ("eq1" ∈ s))) in H.
    vm_compute in H. discriminate.
Qed.

(** C1 (amended): a poll is processed exactly when the hook is enabled, the
    event list is non-empty and permission is granted.  A processed poll
    replaces the SeenSet by the identifier set of the current events, and
    its delta is exactly the current events whose identifier is absent from
    the previous SeenSet; an unprocessed poll leaves the SeenSet as it was
    and raises nothing. *)
Theorem monitorEffect_change_detection
    (toFixed1 : float -> string) (inp : Inputs)
    (earthquakes : list Earthquake) (previous : gset string) :
  let result := monitorEffect toFixed1 inp earthquakes previous in
  let delta := newEarthquakes previous earthquakes in
  (skipsPoll inp earthquakes = false
     <-> enabled inp = true /\ earthquakes <> []
         /\ permission inp = Some Granted)
  /\ (if skipsPoll inp earthquakes
      then result = ([], previous)
      else fst result = flat_map (alertQuake toFixed1 inp) delta
           /\ forall i, i ∈ snd result
                 <-> exists q, In q earthquakes /\ id q = i)
  /\ (forall q, In q delta <-> In q earthquakes /\ id q ∉ previous).
Proof.
  cbv zeta. split; [|split].
  - unfold skipsPoll, is_granted.
    destruct (enabled inp), earthquakes as [|q l],
      (permission inp) as [[| |]|]; simpl;
      intuition (discriminate || congruence).
  - unfold monitorEffect.
    destruct (skipsPoll inp earthquakes); [reflexivity|].
    simpl. split; [reflexivity|]. intros i. apply elem_of_currentIds.
  - intros q. unfold newEarthquakes. rewrite filter_In, bool_decide_eq_true.
    reflexivity.
Qed.

(** C2, as stated, fails: ["eq1"] (magnitude 4.6, permission granted) is
    alerted on the first poll, drops out of the feed for one poll, and is
    alerted a second time when it reappears. *)
Lemma reappearing_quake_alerts_twice :
  alertsFor "eq1"
    (fst (runPolls showTenths grantedInputs
            [[quake46 "eq1"]; [quake20 "eq2"]; [quake46 "eq1"]] ∅)) = 2.
Proof. vm_compute. reflexivity. Qed.

(** An identifier that is in the SeenSet is not alerted by the next poll,
    whatever that poll delivers. *)
Lemma seen_identifier_is_not_alerted
    (toFixed1 : float -> string) (inp : Inputs)
    (earthquakes : list Earthquake) (previous : gset string) (tag : string) :
  tag ∈ previous ->
  alertsFor tag (fst (monitorEffect toFixed1 inp earthquakes previous)) = 0.
Proof.
  intros Hseen. unfold monitorEffect.
  destruct (skipsPoll inp earthquakes); [reflexivity|]. simpl.
  rewrite alertsFor_flat_map, filter_none; [reflexivity|].
  intros x Hx. unfold newEarthquakes in Hx. apply filter_In in Hx.
  destruct Hx as [_ Hx]. apply bool_decide_eq_true in Hx.
  unfold urgentAs. apply andb_false_iff. right.
  apply bool_decide_eq_false. intros Heq. apply Hx. rewrite Heq. exact Hseen.
Qed.

(** The identifier is carried by every poll of the list that is processed. *)
Definition staysInFeed (inp : Inputs) (tag : string)
    (polls : list (list Earthquake)) : Prop :=
  Forall (fun poll => skipsPoll inp poll = false ->
                      exists x, In x poll /\ id x = tag) polls.

(** As long as every processed poll carries an identifier of the SeenSet,
    no poll alerts it, and neither does the first poll that comes without
    it. *)
Lemma no_alert_while_in_feed
    (toFixed1 : float -> string) (inp : Inputs) (tag : string)
    (polls : list (list Earthquake)) (next : list Earthquake)
    (previous : gset string) :
  tag ∈ previous ->
  staysInFeed inp tag polls ->
  alertsFor tag (fst (runPolls toFixed1 inp (polls ++ [next]) previous)) = 0.
Proof.
  revert previous. induction polls as [|poll polls IH]; intros previous Hseen Hall.
  - simpl.
    pose proof (seen_identifier_is_not_alerted toFixed1 inp next previous tag Hseen)
      as H.
    destruct (monitorEffect toFixed1 inp next previous) as [effs seen].
    simpl in *. rewrite app_nil_r. exact H.
  - inversion Hall as [|? ? Hpoll Hrest]; subst. simpl.
    pose proof (seen_identifier_is_not_alerted toFixed1 inp poll previous tag Hseen)
      as H.
    assert (Hnext : tag ∈ snd (monitorEffect toFixed1 inp poll previous)).
    { unfold monitorEffect.
      destruct (skipsPoll inp poll) eqn:Hskip; simpl; [exact Hseen|].
      apply elem_of_currentIds. destruct (Hpoll eq_refl) as (x & Hx & Hid).
      exists x. split; assumption. }
    destruct (monitorEffect toFixed1 inp poll previous) as [effs seen].
    simpl in *. specialize (IH seen Hnext Hrest).
    destruct (runPolls toFixed1 inp (polls ++ [next]) seen) as [effs' seen'].
    simpl in *. rewrite alertsFor_app, H, IH. reflexivity.
Qed.

(** C2 (amended): when the hook is enabled and permission is granted, a
    batch in which exactly one event carries an identifier that is absent
    from the SeenSet, with a magnitude above 4.5, raises exactly one alert
    for that identifier.  No second alert is raised for it over any number
    of later polls as long as every processed poll carries the identifier
    (polls that are skipped do not count), nor by the first poll that comes
    without it: over the whole run the identifier is alerted once.  The
    same batch delivered again raises nothing at all.  Only an identifier
    that was missing from a processed poll can be alerted again. *)
Theorem one_alert_per_first_appearance
    (toFixed1 : float -> string) (inp : Inputs)
    (batch : list Earthquake) (later : list (list Earthquake))
    (next : list Earthquake) (previous : gset string) (q : Earthquake) :
  enabled inp = true ->
  permission inp = Some Granted ->
  In q batch ->
  length (List.filter (fun x => bool_decide (id x = id q)) batch) = 1 ->
  id q ∉ previous ->
  gt (magnitude q) 4.5%float = true ->
  staysInFeed inp (id q) later ->
  let '(alerts, seen) := monitorEffect toFixed1 inp batch previous in
  alertsFor (id q) alerts = 1
  /\ alertsFor (id q) (fst (runPolls toFixed1 inp (later ++ [next]) seen)) = 0
  /\ alertsFor (id q)
       (fst (runPolls toFixed1 inp (batch :: later ++ [next]) previous)) = 1
  /\ fst (monitorEffect toFixed1 inp batch seen) = [].
Proof.
  intros Hen Hperm Hin Huniq Hnew Hmag Hlater.
  assert (Hrun : skipsPoll inp batch = false).
  { unfold skipsPoll. rewrite Hen, Hperm. destruct batch; [destruct Hin|reflexivity]. }
  assert (Hfirst : alertsFor (id q)
                     (fst (monitorEffect toFixed1 inp batch previous)) = 1).
  { unfold monitorEffect. rewrite Hrun. simpl.
    rewrite alertsFor_flat_map. unfold newEarthquakes, urgentAs.
    transitivity
      (length (List.filter
                 (fun x => (gt (magnitude x) 4.5%float
                            && bool_decide (id x ∉ previous))%bool)
                 (List.filter (fun x => bool_decide (id x = id q)) batch))).
    - f_equal. rewrite !filter_both. apply filter_ext. intros a.
      destruct (gt (magnitude a) 4.5%float), (bool_decide (id a = id q)),
        (bool_decide (id a ∉ previous)); reflexivity.
    - rewrite (filter_singleton _ batch q Hin) by
        (try apply bool_decide_eq_true; auto).
      simpl. rewrite Hmag, (bool_decide_eq_true_2 _ Hnew). reflexivity. }
  assert (Hseen : id q ∈ snd (monitorEffect toFixed1 inp batch previous)).
  { unfold monitorEffect. rewrite Hrun. simpl.
    apply elem_of_currentIds. exists q. split; [assumption|reflexivity]. }
  pose proof (no_alert_while_in_feed toFixed1 inp (id q) later next _ Hseen Hlater)
    as Hquiet.
  assert (Hagain : fst (monitorEffect toFixed1 inp batch
                          (snd (monitorEffect toFixed1 inp batch previous))) = []).
  { unfold monitorEffect. rewrite Hrun. simpl.
    unfold newEarthquakes. rewrite filter_none; [reflexivity|].
    intros x Hx. apply bool_decide_eq_false. intros Hn. apply Hn.
    apply elem_of_currentIds. exists x. split; [assumption|reflexivity]. }
  simpl runPolls.
  destruct (monitorEffect toFixed1 inp batch previous) as [alerts seen].
  simpl in *.
  destruct (runPolls toFixed1 inp (later ++ [next]) seen) as [effs' seen'].
  simpl in *. rewrite alertsFor_app, Hfirst, Hquiet.
  repeat split. exact Hagain.
Qed.

(** The amended C2 at the spec's example: one alert for ["eq1"] on the first
    poll and none afterwards, over a run in which the batch comes again,
    then an empty poll, then the batch in another order, and at last a poll
    without ["eq1"]. *)
Lemma one_alert_per_first_appearance_witness :
  let later := [ [quake46 "eq1"; quake20 "eq2"]; [];
                 [quake20 "eq3"; quake46 "eq1"] ] in
  let '(alerts, seen) :=
    monitorEffect showTenths grantedInputs [quake46 "eq1"; quake20 "eq2"] ∅ in
  alertsFor "eq1" alerts = 1
  /\ alertsFor "eq1"
       (fst (runPolls showTenths grantedInputs
               (later ++ [[quake20 "eq2"]]) seen)) = 0
  /\ alertsFor "eq1"
       (fst (runPolls showTenths grantedInputs
               ([quake46 "eq1"; quake20 "eq2"] :: later ++ [[quake20 "eq2"]])
               ∅)) = 1
  /\ fst (monitorEffect showTenths grantedInputs
            [quake46 "eq1"; quake20 "eq2"] seen) = [].
Proof.
  apply (one_alert_per_first_appearance showTenths grantedInputs
           [quake46 "eq1"; quake20 "eq2"]
           [ [quake46 "eq1"; quake20 "eq2"]; [];
             [quake20 "eq3"; quake46 "eq1"] ]
           [quake20 "eq2"] ∅ (quake46 "eq1")).
  - reflexivity.
  - reflexivity.
  - left. reflexivity.
  - vm_compute. reflexivity.
  - set_solver.
  - vm_compute. reflexivity.
  - repeat constructor.
    + intros _. exists (quake46 "eq1"). split; [left|]; reflexivity.
    + intros H. vm_compute in H. discriminate.
    + intros _. exists (quake46 "eq1"). split; [right; left|]; reflexivity.
Defined.

(** *** Further properties of the change detector *)

(** The identifiers under which alerts are raised, in the order raised. *)
Definition alertTags (effs : list Effect) : list string :=
  flat_map (fun e => match e with
                     | NewNotification _ _ t _ => [t]
                     | _ => []
                     end) effs.

(** [quake.magnitude > 4.5] *)
Definition isUrgent (quake : Earthquake) : bool :=
  gt (magnitude quake) 4.5%float.

Lemma alertTags_app (e1 e2 : list Effect) :
  alertTags (e1 ++ e2) = (alertTags e1 ++ alertTags e2)%list.
Proof. unfold alertTags. apply flat_map_app. Qed.

Lemma filter_isSound_app (e1 e2 : list Effect) :
  List.filter isSound (e1 ++ e2)
  = (List.filter isSound e1 ++ List.filter isSound e2)%list.
Proof. apply List.filter_app. Qed.

(** X1: the number of alerts a poll raises under an identifier is exactly
    the number of events of the batch that carry it with a magnitude above
    4.5, provided the poll is processed and the identifier is not in the
    SeenSet; otherwise it is zero.  An identifier that occurs twice in one
    batch is therefore alerted twice. *)
Theorem alert_count_per_identifier
    (toFixed1 : float -> string) (inp : Inputs)
    (earthquakes : list Earthquake) (previous : gset string) (tag : string) :
  alertsFor tag (fst (monitorEffect toFixed1 inp earthquakes previous))
  = if (skipsPoll inp earthquakes || bool_decide (tag ∈ previous))%bool
    then 0
    else length (List.filter (urgentAs tag) earthquakes).
Proof.
  unfold monitorEffect.
  destruct (skipsPoll inp earthquakes); [reflexivity|]. simpl.
  rewrite alertsFor_flat_map. unfold newEarthquakes. rewrite filter_both.
  destruct (bool_decide (tag ∈ previous)) eqn:Hin.
  - apply bool_decide_eq_true in Hin.
    rewrite filter_none; [reflexivity|].
    intros x _. unfold urgentAs.
    destruct (gt (magnitude x) 4.5%float); [|reflexivity]. simpl.
    destruct (bool_decide (id x = tag)) eqn:E; [|reflexivity].
    apply bool_decide_eq_true in E. subst tag. simpl.
    apply bool_decide_eq_false. tauto.
  - apply bool_decide_eq_false in Hin. f_equal. apply filter_ext.
    intros x. unfold urgentAs.
    destruct (gt (magnitude x) 4.5%float); [|reflexivity]. simpl.
    destruct (bool_decide (id x = tag)) eqn:E; [|reflexivity].
    apply bool_decide_eq_true in E. subst tag. simpl.
    apply bool_decide_eq_true. exact Hin.
Qed.

(** X2: alerts are raised in feed order, one per new urgent event: the tags
    of the notifications constructed by a poll are the identifiers of the
    delta events with magnitude above 4.5, in the order of the batch, and
    the tone is requested once per such event, whether or not the
    notification constructor throws. *)
Theorem alerts_follow_feed_order
    (toFixed1 : float -> string) (inp : Inputs)
    (earthquakes : list Earthquake) (previous : gset string) :
  let effs := fst (monitorEffect toFixed1 inp earthquakes previous) in
  let urgentDelta :=
    if skipsPoll inp earthquakes then []
    else List.filter isUrgent (newEarthquakes previous earthquakes) in
  alertTags effs = map id urgentDelta
  /\ length (List.filter isSound effs) = length urgentDelta.
Proof.
  cbv zeta. unfold monitorEffect.
  destruct (skipsPoll inp earthquakes); [split; reflexivity|]. simpl.
  induction (newEarthquakes previous earthquakes) as [|q l [IH1 IH2]];
    [split; reflexivity|].
  simpl. rewrite alertTags_app, filter_isSound_app, length_app, IH1, IH2.
  unfold alertQuake, isUrgent.
  destruct (gt (magnitude q) 4.5%float); [|split; reflexivity].
  destruct (notificationThrows inp (id q)); split; reflexivity.
Qed.

(** X3: after any sequence of polls the SeenSet is the identifier set of
    the last poll that was processed, or the initial set when none was:
    nothing older than one processed poll is remembered. *)
Theorem seen_set_is_last_processed_poll
    (toFixed1 : float -> string) (inp : Inputs)
    (polls : list (list Earthquake)) (previous : gset string) :
  snd (runPolls toFixed1 inp polls previous)
  = match last (List.filter (fun batch => negb (skipsPoll inp batch)) polls) with
    | Some batch => currentIds batch
    | None => previous
    end.
Proof.
  revert previous. induction polls as [|batch polls IH]; intros previous;
    [reflexivity|].
  simpl. unfold monitorEffect.
  destruct (skipsPoll inp batch) eqn:Hskip; simpl.
  - specialize (IH previous).
    destruct (runPolls toFixed1 inp polls previous) as [effs seen].
    exact IH.
  - specialize (IH (currentIds batch)).
    destruct (runPolls toFixed1 inp polls (currentIds batch)) as [effs seen].
    simpl in *. rewrite IH, last_cons.
    destruct (last _); reflexivity.
Qed.

End UseNotifications.

(** ** The [Notification] global

    The session registrations and the subscribing effects of the two
    bridges read [Notification.permission] without first testing
    ['Notification' in window].  In a browser without the Notification API
    the identifier is not declared and the read throws a [ReferenceError];
    where the API is the callback-based one, [requestPermission()] returns
    no promise and calling [.then] on its result throws. *)
Module NotificationGlobal.
Import Js Exn.

(** The global as a hook body finds it: not declared, with the message of
    the [ReferenceError] the engine throws; or declared, with the value of
    [permission] and what [Notification.requestPermission().then(...)]
    throws, if it does. *)
Inductive t : Type :=
  | Undeclared (message : string)
  | Declared (permission : NotificationPermission)
             (requestPermission : option Thrown).

(** [Notification.permission] *)
Definition readPermission {S} (g : t) : M S NotificationPermission :=
  match g with
  | Undeclared message => throw (ErrorObject message)
  | Declared permission _ => ret permission
  end.

(** [if (Notification.permission === 'default')
       Notification.requestPermission().then(...)] *)
Definition requestIfDefault {S} (g : t) : M S unit :=
  (permission <- readPermission g ;;
   match permission, g with
   | Default, Declared _ (Some err) => throw err
   | _, _ => ret tt
   end)%js.

(** What the two statements above throw, if anything. *)
Definition thrownBy (g : t) : option Thrown :=
  match g with
  | Undeclared message => Some (ErrorObject message)
  | Declared Default (Some err) => Some err
  | Declared _ _ => None
  end.

(** A browser with the promise-based API and permission granted. *)
Definition modern : t := Declared Granted None.

End NotificationGlobal.

(** ** Operator broadcasts

    A row of [admin_notifications] (Supabase) or a child of
    [notifications] (Firebase), read as [any]: every member may be
    missing. *)
Module Broadcast.

(** A member that is printed: the key is missing ([undefined]), the value
    is [null] (a NULL column of a row), or it is a string. *)
Inductive Member : Type :=
  | Undefined
  | Null
  | Value (v : string).

(** The members [id], [title] and [body] are printed.  The others are only
    tested for truthiness or compared, which [undefined] and [null] pass
    alike: for them [None] stands for either. *)
Record Message : Type := mkMessage {
  id : Member;
  title : Member;
  body : Member;
  language : option string;
  sound : option bool;
  created_at : option string;
  sent_at : option string
}.

(** The viewer's side of a delivery: ['Notification' in window],
    [Notification.permission], whether the constructor throws, the mobile
    flag and the text of [Date.now()]. *)
Record Viewer : Type := mkViewer {
  notificationSupported : bool;
  permission : Js.NotificationPermission;
  notificationThrows : bool;
  isMobile : bool;
  nowText : string
}.

(** [String(x)], as in a template literal and for the [title] argument of
    [new Notification]. *)
Definition text (x : Member) : string :=
  match x with
  | Value v => v
  | Null => "null"
  | Undefined => "undefined"
  end.

(** A member passed as the [body] option of [new Notification]: an option
    that is [undefined] keeps its default, the empty string. *)
Definition optionText (x : Member) : string :=
  match x with
  | Value v => v
  | Null => "null"
  | Undefined => ""
  end.

(** [x || d] *)
Definition orElse (x : Member) (d : string) : string :=
  match x with
  | Value v => if Js.str_falsy v then d else v
  | Undefined | Null => d
  end.

(** [permission === 'granted'] *)
Definition granted (v : Viewer) : bool :=
  match permission v with
  | Js.Granted => true
  | _ => false
  end.

End Broadcast.

(** ** Realtime bridge over Supabase ([useSupabaseNotifications]) *)
Module SupabaseBridge.
Import Js Exn Surface Broadcast.

(** [notification.language && notification.language !== currentLanguage
     && notification.language !== 'all'] *)
Definition languageMismatch (n : Message) (currentLanguage : Language) : bool :=
  match language n with
  | Some l =>
      (negb (str_falsy l)
       && negb (String.eqb l (language_tag currentLanguage))
       && negb (String.eqb l "all"))%bool
  | None => false
  end.

(** The [postgres_changes] callback.  [activateAudioContext] and
    [playAlertSound] are awaited before the notification is constructed;
    when the constructor throws, the rest of the [try] block is skipped. *)
Definition onInsert (v : Viewer) (currentLanguage : Language) (n : Message)
  : list Effect :=
  if languageMismatch n currentLanguage then []
  else if negb (notificationSupported v) then []
  else if negb (granted v) then []
  else
    let tag := "admin-notification-" ++ text (id n) in
    ActivateAudioContext
    :: PlayAlertSound
    :: NewNotification (text (title n)) (optionText (body n)) tag true
    :: (if notificationThrows v then []
        else SetTimeoutClose tag 15000%Z
             :: match sent_at n with
                | Some t => if str_falsy t then [MarkSent (text (id n))] else []
                | None => [MarkSent (text (id n))]
                end).

(** The status passed to the [subscribe] callback. *)
Inductive Status : Type :=
  | SUBSCRIBED
  | CHANNEL_ERROR
  | TIMED_OUT
  | CLOSED.

(** [subscriptionRef] and the channels opened so far; a channel is named by
    its rank of creation. *)
Record Bridge : Type := mkBridge {
  subscriptionRef : option nat;
  channels : nat
}.

(** One pass of the subscribing [useEffect].  Past the two guards the body
    reads [Notification.permission] for the log line and again for the
    permission request, outside any [try]: when either statement throws,
    the pass ends there, before the channel is created, and the exception
    leaves the effect. *)
Definition subscribeEffect (enabled supabaseConfigured : bool)
    (g : NotificationGlobal.t) : M Bridge unit :=
  if (negb enabled || negb supabaseConfigured)%bool then ret tt
  else
    (b <- get ;;
     match subscriptionRef b with
     | Some _ => ret tt
     | None =>
         _ <- NotificationGlobal.readPermission g ;;
         NotificationGlobal.requestIfDefault g ;;
         modify (fun b => mkBridge (Some (channels b)) (S (channels b)))
     end)%js.

(** The [subscribe] callback: only [CLOSED] touches the ref, the other
    statuses are logged. *)
Definition onStatus (status : Status) (b : Bridge) : Bridge :=
  match status with
  | CLOSED => mkBridge None (channels b)
  | SUBSCRIBED | CHANNEL_ERROR | TIMED_OUT => b
  end.

(** The cleanup returned by the effect; [enabled] is the value captured when
    the effect ran. *)
Definition cleanup (enabled supabaseConfigured : bool) (b : Bridge) : Bridge :=
  match subscriptionRef b with
  | Some _ =>
      if (negb enabled && supabaseConfigured)%bool
      then mkBridge None (channels b)
      else b
  | None => b
  end.

End SupabaseBridge.

(** ** Realtime bridge over Firebase ([useFirebaseNotifications]) *)
Module FirebaseBridge.
Import Js Surface Broadcast.

(** [snapshot.val()]: [null], or an object whose entries are listed in the
    order of [Object.keys]; a falsy child is [None]. *)
Definition Snapshot : Type := option (list (string * option Message)).

(** [notification.language && notification.language !== 'all'
     && notification.language !== currentLanguage] *)
Definition languageMismatch (n : Message) (currentLanguage : Language) : bool :=
  match language n with
  | Some l =>
      (negb (str_falsy l)
       && negb (String.eqb l "all")
       && negb (String.eqb l (language_tag currentLanguage)))%bool
  | None => false
  end.

(** [notification.sound !== false] *)
Definition soundEnabled (n : Message) : bool :=
  match sound n with
  | Some false => false
  | _ => true
  end.

(** The part of the [onValue] callback that follows the choice of the
    record.  [activateAudioContext()] is called first; [playAlertSound]
    runs from its [then], after the notification has been constructed. *)
Definition deliver (v : Viewer) (currentLanguage : Language) (n : Message)
  : list Effect :=
  if languageMismatch n currentLanguage then []
  else if negb (notificationSupported v) then []
  else if negb (granted v) then []
  else
    ((if soundEnabled n then [ActivateAudioContext] else [])
    ++ [NewNotification (orElse (title n) "Earthquake Monitor")
                        (orElse (body n) "")
                        ("earthquake-monitor-" ++ orElse (id n) (nowText v))
                        false]
    ++ (if soundEnabled n then [PlayAlertSound] else []))%list.

(** [notifications[notificationKeys[notificationKeys.length - 1]]] *)
Definition latest (notifications : list (string * option Message))
  : option (string * option Message) :=
  last notifications.

(** The [onValue] callback. *)
Definition onValue (v : Viewer) (currentLanguage : Language) (snapshot : Snapshot)
  : list Effect :=
  match snapshot with
  | None => []
  | Some notifications =>
      match latest notifications with
      | None => []
      | Some (latestKey, None) => []
      | Some (latestKey, Some notification) =>
          deliver v currentLanguage notification
      end
  end.

End FirebaseBridge.

(** ** Properties of the realtime bridges *)
Module RealtimeBridge.
Import Js Surface Broadcast.

(** *** Sample viewers and messages *)

Definition readyViewer : Viewer := mkViewer true Granted false false "1700000000000".

Definition untagged : Message :=
  mkMessage (Value "7") (Value "Drill") (Value "Test broadcast") None None None None.

Definition mutedForAll : Message :=
  mkMessage (Value "8") (Value "Drill") (Value "Test broadcast") (Some "all")
            (Some false) None None.

Definition russianOnly : Message :=
  mkMessage (Value "9") (Value "Учения") (Value "Проверка") (Some "ru") None None None.

Definition liveBridge : SupabaseBridge.Bridge := SupabaseBridge.mkBridge (Some 0) 1.

(** *** Language matching *)

(** The message passes the language check of a viewer: its tag is missing
    or empty, is ["all"], or is the viewer's language. *)
Definition passes (n : Message) (currentLanguage : Language) : Prop :=
  str_truthy (language n) = false
  \/ language n = Some "all"
  \/ language n = Some (language_tag currentLanguage).

Lemma supabase_mismatch_iff n cur :
  SupabaseBridge.languageMismatch n cur = false <-> passes n cur.
Proof.
  unfold SupabaseBridge.languageMismatch, passes, str_truthy.
  destruct (language n) as [l|]; [|tauto].
  destruct (str_falsy l); simpl; [tauto|].
  destruct (String.eqb_spec l (language_tag cur)) as [->|Hcur]; simpl; [tauto|].
  destruct (String.eqb_spec l "all") as [->|Hall]; simpl; [tauto|].
  split; [discriminate|]. intros [H|[H|H]]; congruence.
Qed.

Lemma mismatch_agree n cur :
  FirebaseBridge.languageMismatch n cur = SupabaseBridge.languageMismatch n cur.
Proof.
  unfold FirebaseBridge.languageMismatch, SupabaseBridge.languageMismatch.
  destruct (language n) as [l|]; [|reflexivity].
  destruct (str_falsy l), (String.eqb l "all"),
    (String.eqb l (language_tag cur)); reflexivity.
Qed.

Lemma onValue_last v cur entries k r :
  FirebaseBridge.onValue v cur (Some (entries ++ [(k, r)])%list)
  = match r with
    | Some n => FirebaseBridge.deliver v cur n
    | None => []
    end.
Proof.
  unfold FirebaseBridge.onValue, FirebaseBridge.latest.
  rewrite last_snoc. reflexivity.
Qed.

(** C4, as stated, fails in both directions.  A message with no language
    tag reaches an English viewer's alert surface and audio path although
    its tag is neither ["all"] nor ["en"]; and over Firebase a message
    tagged ["all"] whose sound flag is [false] raises the alert without
    the audio path. *)
Lemma language_rule_misses_untagged_and_muted :
  (invokesAlertSurface (SupabaseBridge.onInsert readyViewer En untagged) = true
   /\ invokesAudio (SupabaseBridge.onInsert readyViewer En untagged) = true
   /\ language untagged <> Some "all"
   /\ language untagged <> Some (language_tag En))
  /\ (language mutedForAll = Some "all"
      /\ invokesAlertSurface
           (FirebaseBridge.onValue readyViewer En (Some [("-N1", Some mutedForAll)]))
         = true
      /\ invokesAudio
           (FirebaseBridge.onValue readyViewer En (Some [("-N1", Some mutedForAll)]))
         = false).
Proof. repeat split; discriminate. Qed.

(** C4 (amended): with notifications supported and permitted, a broadcast
    invokes the alert surface if and only if its language tag is missing or
    empty, is ["all"], or is the viewer's language; the Supabase bridge
    invokes the audio path under the same condition, the Firebase bridge
    only when, in addition, the sound flag is not [false].  Any other
    message produces no effect at all: it is dropped, not kept for later. *)
Theorem broadcast_language_gate
    (v : Viewer) (cur : Language) (n : Message)
    (entries : list (string * option Message)) (k : string) :
  notificationSupported v = true ->
  granted v = true ->
  let viaSupabase := SupabaseBridge.onInsert v cur n in
  let viaFirebase :=
    FirebaseBridge.onValue v cur (Some (entries ++ [(k, Some n)])%list) in
  (invokesAlertSurface viaSupabase = true <-> passes n cur)
  /\ (invokesAudio viaSupabase = true <-> passes n cur)
  /\ (invokesAlertSurface viaFirebase = true <-> passes n cur)
  /\ (invokesAudio viaFirebase = true <-> passes n cur /\ sound n <> Some false)
  /\ (~ passes n cur -> viaSupabase = [] /\ viaFirebase = []).
Proof.
  intros Hsup Hgr. cbv zeta. rewrite onValue_last.
  unfold SupabaseBridge.onInsert, FirebaseBridge.deliver.
  rewrite Hsup, Hgr, mismatch_agree. simpl.
  pose proof (supabase_mismatch_iff n cur) as Hiff.
  destruct (SupabaseBridge.languageMismatch n cur); simpl.
  - assert (Hno : ~ passes n cur) by (intros H; apply Hiff in H; discriminate).
    repeat split; try discriminate; try tauto.
  - assert (Hyes : passes n cur) by (apply Hiff; reflexivity).
    unfold FirebaseBridge.soundEnabled.
    destruct (sound n) as [[|]|]; simpl;
      repeat split; try discriminate; try tauto; try congruence.
Qed.

(** The amended C4 at the spec's example: a message tagged ["ru"] arriving
    at an English viewer, alone or behind an older record. *)
Lemma broadcast_language_gate_witness :
  let viaSupabase := SupabaseBridge.onInsert readyViewer En russianOnly in
  let viaFirebase :=
    FirebaseBridge.onValue readyViewer En
      (Some ([("-N1", Some untagged)] ++ [("-N2", Some russianOnly)])%list) in
  (invokesAlertSurface viaSupabase = true <-> passes russianOnly En)
  /\ (invokesAudio viaSupabase = true <-> passes russianOnly En)
  /\ (invokesAlertSurface viaFirebase = true <-> passes russianOnly En)
  /\ (invokesAudio viaFirebase = true
      <-> passes russianOnly En /\ sound russianOnly <> Some false)
  /\ (~ passes russianOnly En -> viaSupabase = [] /\ viaFirebase = []).
Proof.
  apply (broadcast_language_gate readyViewer En russianOnly
           [("-N1", Some untagged)] "-N2"); reflexivity.
Defined.

(** C9: a broadcast whose language member is missing or empty passes the
    language check of every viewer over both bridges; what it triggers
    does not depend on the viewer's language, and a viewer with
    notifications supported and permitted gets the alert. *)
Theorem untagged_broadcast_reaches_every_viewer
    (v : Viewer) (n : Message) (cur other : Language)
    (entries : list (string * option Message)) (k : string) :
  str_truthy (language n) = false ->
  SupabaseBridge.languageMismatch n cur = false
  /\ FirebaseBridge.languageMismatch n cur = false
  /\ SupabaseBridge.onInsert v cur n = SupabaseBridge.onInsert v other n
  /\ FirebaseBridge.onValue v cur (Some (entries ++ [(k, Some n)])%list)
     = FirebaseBridge.onValue v other (Some (entries ++ [(k, Some n)])%list)
  /\ invokesAlertSurface (SupabaseBridge.onInsert v cur n)
     = (notificationSupported v && granted v)%bool
  /\ invokesAlertSurface
       (FirebaseBridge.onValue v cur (Some (entries ++ [(k, Some n)])%list))
     = (notificationSupported v && granted v)%bool.
Proof.
  intros Hno.
  assert (Hs : forall l, SupabaseBridge.languageMismatch n l = false).
  { intros l. apply supabase_mismatch_iff. left. exact Hno. }
  assert (Hf : forall l, FirebaseBridge.languageMismatch n l = false).
  { intros l. rewrite mismatch_agree. apply Hs. }
  rewrite !onValue_last.
  unfold SupabaseBridge.onInsert, FirebaseBridge.deliver.
  rewrite !Hs, !Hf.
  repeat split.
  - destruct (notificationSupported v), (granted v); reflexivity.
  - destruct (notificationSupported v), (granted v); try reflexivity.
    destruct (FirebaseBridge.soundEnabled n); reflexivity.
Qed.

(** C9 at a message with no language member and a Russian viewer. *)
Lemma untagged_broadcast_reaches_every_viewer_witness :
  SupabaseBridge.languageMismatch untagged Ru = false
  /\ FirebaseBridge.languageMismatch untagged Ru = false
  /\ SupabaseBridge.onInsert readyViewer Ru untagged
     = SupabaseBridge.onInsert readyViewer En untagged
  /\ FirebaseBridge.onValue readyViewer Ru
       (Some ([] ++ [("-N1", Some untagged)])%list)
     = FirebaseBridge.onValue readyViewer En
         (Some ([] ++ [("-N1", Some untagged)])%list)
  /\ invokesAlertSurface (SupabaseBridge.onInsert readyViewer Ru untagged)
     = (notificationSupported readyViewer && granted readyViewer)%bool
  /\ invokesAlertSurface
       (FirebaseBridge.onValue readyViewer Ru
          (Some ([] ++ [("-N1", Some untagged)])%list))
     = (notificationSupported readyViewer && granted readyViewer)%bool.
Proof.
  apply (untagged_broadcast_reaches_every_viewer readyViewer untagged Ru En
           [] "-N1").
  reflexivity.
Defined.

(** *** Snapshots *)

Lemma deliver_at_most_one v cur n :
  length (List.filter isNotification (FirebaseBridge.deliver v cur n)) <= 1.
Proof.
  unfold FirebaseBridge.deliver.
  destruct (FirebaseBridge.languageMismatch n cur),
    (notificationSupported v), (granted v), (FirebaseBridge.soundEnabled n);
    simpl; lia.
Qed.

(** C10: of a snapshot, only the record under the last key is considered:
    the callback does on the whole snapshot what it does on that record
    alone, whatever the other records are; an empty or null snapshot and a
    falsy last record trigger nothing; and one snapshot raises at most one
    alert. *)
Theorem only_last_snapshot_record_is_considered
    (v : Viewer) (cur : Language)
    (others : list (string * option Message)) (k : string)
    (r : option Message) (snapshot : FirebaseBridge.Snapshot) :
  FirebaseBridge.onValue v cur (Some (others ++ [(k, r)])%list)
  = FirebaseBridge.onValue v cur (Some [(k, r)])
  /\ FirebaseBridge.onValue v cur (Some (others ++ [(k, None)])%list) = []
  /\ FirebaseBridge.onValue v cur (Some []) = []
  /\ FirebaseBridge.onValue v cur None = []
  /\ length (List.filter isNotification (FirebaseBridge.onValue v cur snapshot)) <= 1.
Proof.
  split; [|split; [|split; [|split]]].
  - rewrite (onValue_last v cur others k r).
    exact (eq_sym (onValue_last v cur [] k r)).
  - apply (onValue_last v cur others k None).
  - reflexivity.
  - reflexivity.
  - destruct snapshot as [entries|]; [|simpl; lia].
    destruct entries as [|e entries _] using rev_ind; [simpl; lia|].
    destruct e as [k' [n|]].
    + rewrite onValue_last. apply deliver_at_most_one.
    + rewrite onValue_last. simpl. lia.
Qed.

(** *** The subscription guard *)

(** C8, as stated, fails for a timeout: after [TIMED_OUT] the guard still
    holds the old channel, and the next lifecycle pass does nothing. *)
Lemma timeout_leaves_guard_set :
  SupabaseBridge.onStatus SupabaseBridge.TIMED_OUT liveBridge = liveBridge
  /\ SupabaseBridge.subscribeEffect true true NotificationGlobal.modern
       (SupabaseBridge.onStatus SupabaseBridge.TIMED_OUT liveBridge)
     = (Exn.Returned tt, liveBridge)
  /\ SupabaseBridge.subscriptionRef liveBridge = Some 0.
Proof. repeat split. Qed.

(** A pass either does nothing, throws on the [Notification] global before
    a channel is created, or opens a channel and sets the guard to it. *)
Lemma subscribeEffect_run enabled configured g b :
  SupabaseBridge.subscribeEffect enabled configured g b
  = if (negb enabled || negb configured)%bool then (Exn.Returned tt, b)
    else
      match SupabaseBridge.subscriptionRef b, NotificationGlobal.thrownBy g with
      | Some _, _ => (Exn.Returned tt, b)
      | None, Some err => (Exn.Threw err, b)
      | None, None =>
          (Exn.Returned tt,
           SupabaseBridge.mkBridge (Some (SupabaseBridge.channels b))
                                   (S (SupabaseBridge.channels b)))
      end.
Proof.
  unfold SupabaseBridge.subscribeEffect, NotificationGlobal.requestIfDefault,
    NotificationGlobal.readPermission, NotificationGlobal.thrownBy,
    Exn.bind, Exn.get, Exn.modify, Exn.ret, Exn.throw.
  destruct (negb enabled || negb configured)%bool; [reflexivity|]. simpl.
  destruct (SupabaseBridge.subscriptionRef b); [reflexivity|].
  destruct g as [message|[| |] [err|]]; reflexivity.
Qed.

(** C8 (amended): a lifecycle pass that finds the guard set changes
    nothing, so no second channel is created.  A [CLOSED] status resets
    the guard, and the next pass of an enabled, configured bridge then
    opens a new channel and sets the guard to it (in a browser where
    reading the [Notification] global throws, that pass throws instead,
    before a channel is created).  Every other status, [TIMED_OUT]
    included, is only logged and leaves the guard as it is. *)
Theorem subscription_guard
    (enabled configured : bool) (g : NotificationGlobal.t)
    (channel opened : nat)
    (b : SupabaseBridge.Bridge) (status : SupabaseBridge.Status) :
  SupabaseBridge.subscribeEffect enabled configured g
    (SupabaseBridge.mkBridge (Some channel) opened)
  = (Exn.Returned tt, SupabaseBridge.mkBridge (Some channel) opened)
  /\ SupabaseBridge.subscriptionRef
       (SupabaseBridge.onStatus SupabaseBridge.CLOSED b) = None
  /\ SupabaseBridge.subscribeEffect true true g
       (SupabaseBridge.onStatus SupabaseBridge.CLOSED b)
     = match NotificationGlobal.thrownBy g with
       | None =>
           (Exn.Returned tt,
            SupabaseBridge.mkBridge (Some (SupabaseBridge.channels b))
                                    (S (SupabaseBridge.channels b)))
       | Some err =>
           (Exn.Threw err, SupabaseBridge.onStatus SupabaseBridge.CLOSED b)
       end
  /\ (if status is SupabaseBridge.CLOSED then True
      else SupabaseBridge.onStatus status b = b).
Proof.
  rewrite !subscribeEffect_run. simpl.
  split; [|split; [|split]].
  - destruct (negb enabled || negb configured)%bool; reflexivity.
  - reflexivity.
  - destruct (NotificationGlobal.thrownBy g); reflexivity.
  - destruct status; reflexivity.
Qed.

End RealtimeBridge.

(** ** The WAV encoder ([audioBufferToWav]) *)
Module Wav.
Import Js.

(** The members of an [AudioBuffer] the encoder reads;
    [getChannelData channel i] is [buffer.getChannelData(channel)[i]]. *)
Module AudioBuffer.
Record t : Type := mk {
  numberOfChannels : nat;
  sampleRate : float;
  length : nat;
  getChannelData : nat -> nat -> float
}.
End AudioBuffer.

(** What a [DataView] setter throws when the write does not fit. *)
Definition rangeError : Thrown :=
  ErrorObject "Offset is outside the bounds of the DataView".

(** The [width] low-order bytes of [v], least significant first: the bytes
    a little-endian setter stores for an integer, modulo [256 ^ width]. *)
Fixpoint littleEndian (width : nat) (v : Z) : list Z :=
  match width with
  | O => []
  | S width' => (v mod 256)%Z :: littleEndian width' (v / 256)%Z
  end.

(** A [DataView] write of [bytes] at [byteOffset]. *)
Definition setBytes (byteOffset : nat) (bytes view : list Z) : Thrown + list Z :=
  if Nat.leb (byteOffset + length bytes) (length view)
  then inr (take byteOffset view ++ bytes
            ++ drop (byteOffset + length bytes) view)%list
  else inl rangeError.

(** The integer a setter makes of a number: truncation toward zero, and 0
    for [NaN] and the infinities. *)
Definition truncate (x : float) : Z :=
  match Prim2SF x with
  | S754_finite s m e =>
      let a := (if (0 <=? e)%Z then Z.pos m * 2 ^ e else Z.pos m / 2 ^ (- e))%Z in
      if s then (- a)%Z else a
  | _ => 0%Z
  end.

(** An integer as a number. *)
Definition ofNat (n : nat) : float := PrimFloat.of_uint63 (Uint63.of_Z (Z.of_nat n)).

(** [Math.min(a, b)] and [Math.max(a, b)] *)
Definition isNaN (x : float) : bool := negb (PrimFloat.eqb x x).

Definition mathMin (a b : float) : float :=
  if (isNaN a || isNaN b)%bool then nan
  else if PrimFloat.ltb a b then a
  else if PrimFloat.ltb b a then b
  else match PrimFloat.classify a with
       | NZero => a
       | _ => b
       end.

Definition mathMax (a b : float) : float :=
  if (isNaN a || isNaN b)%bool then nan
  else if PrimFloat.ltb a b then b
  else if PrimFloat.ltb b a then a
  else match PrimFloat.classify a with
       | PZero => a
       | _ => b
       end.

(** The value handed to [setInt16] for one sample. *)
Definition pcmValue (x : float) : float :=
  let sample := mathMax (-1)%float (mathMin 1%float x) in
  if PrimFloat.ltb sample 0%float
  then (sample * 32768)%float
  else (sample * 32767)%float.

Definition setUint8 (byteOffset : nat) (value : Z) (view : list Z) :=
  setBytes byteOffset (littleEndian 1 value) view.

Definition setUint16 (byteOffset : nat) (value : Z) (view : list Z) :=
  setBytes byteOffset (littleEndian 2 value) view.

Definition setUint32 (byteOffset : nat) (value : Z) (view : list Z) :=
  setBytes byteOffset (littleEndian 4 value) view.

Definition setInt16 (byteOffset : nat) (value : float) (view : list Z) :=
  setBytes byteOffset (littleEndian 2 (truncate value)) view.

(** [string.charCodeAt(i)] *)
Definition charCode (c : Ascii.ascii) : Z := Z.of_N (Ascii.N_of_ascii c).

(** [const writeString = (offset, string) => ...] *)
Fixpoint writeString (offset : nat) (s : string) (view : list Z)
  : Thrown + list Z :=
  match s with
  | EmptyString => inr view
  | String c rest =>
      match setUint8 offset (charCode c) view with
      | inl e => inl e
      | inr view' => writeString (S offset) rest view'
      end
  end.

(** Sequencing of steps that may throw. *)
Definition andThen {A B} (r : Thrown + A) (k : A -> Thrown + B) : Thrown + B :=
  match r with
  | inl e => inl e
  | inr a => k a
  end.

Section Encode.

Variable buffer : AudioBuffer.t.

Definition numChannels : nat := AudioBuffer.numberOfChannels buffer.
Definition frames : nat := AudioBuffer.length buffer.
Definition bytesPerSample : nat := 2.
Definition blockAlign : nat := numChannels * bytesPerSample.
Definition dataBytes : nat := frames * numChannels * bytesPerSample.

(** [for (let channel = 0; channel < numChannels; channel++)], with [todo]
    the iterations left. *)
Fixpoint channelLoop (i channel todo : nat) (view : list Z) (offset : nat)
  : Thrown + (list Z * nat) :=
  match todo with
  | O => inr (view, offset)
  | S todo' =>
      match setInt16 offset
              (pcmValue (AudioBuffer.getChannelData buffer channel i)) view with
      | inl e => inl e
      | inr view' => channelLoop i (S channel) todo' view' (offset + 2)
      end
  end.

(** [for (let i = 0; i < length; i++)], with [todo] the iterations left. *)
Fixpoint frameLoop (i todo : nat) (view : list Z) (offset : nat)
  : Thrown + (list Z * nat) :=
  match todo with
  | O => inr (view, offset)
  | S todo' =>
      match channelLoop i 0 numChannels view offset with
      | inl e => inl e
      | inr (view', offset') => frameLoop (S i) todo' view' offset'
      end
  end.

(** The thirteen header writes, in program order. *)
Definition writeHeader (view : list Z) : Thrown + list Z :=
  andThen (writeString 0 "RIFF" view) (fun view =>
  andThen (setUint32 4 (Z.of_nat (36 + dataBytes)) view) (fun view =>
  andThen (writeString 8 "WAVE" view) (fun view =>
  andThen (writeString 12 "fmt " view) (fun view =>
  andThen (setUint32 16 16 view) (fun view =>
  andThen (setUint16 20 1 view) (fun view =>
  andThen (setUint16 22 (Z.of_nat numChannels) view) (fun view =>
  andThen (setUint32 24 (truncate (AudioBuffer.sampleRate buffer)) view) (fun view =>
  andThen (setUint32 28 (truncate (AudioBuffer.sampleRate buffer * ofNat blockAlign)%float) view) (fun view =>
  andThen (setUint16 32 (Z.of_nat blockAlign) view) (fun view =>
  andThen (setUint16 34 16 view) (fun view =>
  andThen (writeString 36 "data" view) (fun view =>
  setUint32 40 (Z.of_nat dataBytes) view)))))))))))).

(** [function audioBufferToWav(buffer: AudioBuffer): ArrayBuffer]; the
    [ArrayBuffer] starts zeroed. *)
Definition audioBufferToWav : Thrown + list Z :=
  andThen (writeHeader (replicate (44 + dataBytes) 0%Z)) (fun view =>
  andThen (frameLoop 0 frames view 44) (fun '(view, _) => inr view)).

(** The RIFF/WAVE header, field by field. *)
Definition wavHeader : list Z :=
  (map charCode (String.list_ascii_of_string "RIFF")
   ++ littleEndian 4 (Z.of_nat (36 + dataBytes))
   ++ map charCode (String.list_ascii_of_string "WAVE")
   ++ map charCode (String.list_ascii_of_string "fmt ")
   ++ littleEndian 4 16
   ++ littleEndian 2 1
   ++ littleEndian 2 (Z.of_nat numChannels)
   ++ littleEndian 4 (truncate (AudioBuffer.sampleRate buffer))
   ++ littleEndian 4 (truncate (AudioBuffer.sampleRate buffer * ofNat blockAlign)%float)
   ++ littleEndian 2 (Z.of_nat blockAlign)
   ++ littleEndian 2 16
   ++ map charCode (String.list_ascii_of_string "data")
   ++ littleEndian 4 (Z.of_nat dataBytes))%list.

(** The samples of frame [i], channel after channel. *)
Definition frameBytes (i : nat) : list Z :=
  flat_map (fun channel =>
              littleEndian 2
                (truncate (pcmValue (AudioBuffer.getChannelData buffer channel i))))
           (seq 0 numChannels).

(** All frames in order. *)
Definition wavSamples : list Z := flat_map frameBytes (seq 0 frames).

Lemma setBytes_next (done bytes : list Z) (room : nat) :
  setBytes (length done) bytes (done ++ replicate (length bytes + room) 0%Z)
  = inr ((done ++ bytes) ++ replicate room 0%Z)%list.
Proof.
  unfold setBytes.
  rewrite length_app, length_replicate.
  destruct (Nat.leb_spec (length done + length bytes)
              (length done + (length bytes + room))) as [_|H]; [|lia].
  f_equal. rewrite take_app_length.
  rewrite drop_app_ge by lia.
  replace (length done + length bytes - length done) with (length bytes) by lia.
  rewrite drop_replicate.
  replace (length bytes + room - length bytes) with room by lia.
  rewrite <- app_assoc. reflexivity.
Qed.

Lemma channelLoop_fills (i : nat) (todo channel : nat) (done : list Z) (room : nat) :
  channelLoop i channel todo (done ++ replicate (2 * todo + room) 0%Z) (length done)
  = inr ((done
          ++ flat_map (fun c => littleEndian 2
                         (truncate (pcmValue (AudioBuffer.getChannelData buffer c i))))
                      (seq channel todo))
         ++ replicate room 0%Z,
         length done + 2 * todo)%list.
Proof.
  revert channel done. induction todo as [|todo IH]; intros channel done.
  - simpl. rewrite app_nil_r, Nat.add_0_r. reflexivity.
  - cbn [channelLoop]. unfold setInt16.
    replace (2 * S todo + room) with (2 + (2 * todo + room)) by lia.
    rewrite (setBytes_next done (littleEndian 2 _) (2 * todo + room)).
    replace (length done + 2)
      with (length (done ++ littleEndian 2
              (truncate (pcmValue (AudioBuffer.getChannelData buffer channel i)))))
      by (rewrite length_app; reflexivity).
    rewrite IH. f_equal. f_equal.
    + cbn [seq flat_map]. rewrite <- !app_assoc. reflexivity.
    + rewrite length_app. simpl. lia.
Qed.

Lemma samples_length (f : nat -> Z) (start count : nat) :
  length (flat_map (fun c => littleEndian 2 (f c)) (seq start count)) = 2 * count.
Proof.
  revert start. induction count as [|n IH]; intros start; [reflexivity|].
  cbn [seq flat_map]. rewrite length_app, IH. simpl. lia.
Qed.

Lemma frameBytes_length (i : nat) : length (frameBytes i) = 2 * numChannels.
Proof. unfold frameBytes. apply samples_length. Qed.

Lemma frameLoop_fills (todo i : nat) (done : list Z) (room : nat) :
  frameLoop i todo (done ++ replicate (todo * (2 * numChannels) + room) 0%Z)
            (length done)
  = inr ((done ++ flat_map frameBytes (seq i todo)) ++ replicate room 0%Z,
         length done + todo * (2 * numChannels))%list.
Proof.
  revert i done. induction todo as [|todo IH]; intros i done.
  - simpl. rewrite app_nil_r, Nat.add_0_r. reflexivity.
  - cbn [frameLoop].
    replace (S todo * (2 * numChannels) + room)
      with (2 * numChannels + (todo * (2 * numChannels) + room)) by lia.
    rewrite channelLoop_fills. fold (frameBytes i).
    pose proof (frameBytes_length i) as Hlen.
    replace (length done + 2 * numChannels) with (length (done ++ frameBytes i))
      by (rewrite length_app, Hlen; reflexivity).
    rewrite IH. f_equal. f_equal.
    + cbn [seq flat_map]. rewrite <- !app_assoc. reflexivity.
    + rewrite length_app, Hlen. lia.
Qed.

Lemma writeHeader_fills (room : nat) :
  writeHeader (replicate (44 + room) 0%Z) = inr (wavHeader ++ replicate room 0%Z)%list.
Proof.
  unfold writeHeader, wavHeader.
  generalize (Z.of_nat (36 + dataBytes)), (Z.of_nat numChannels),
    (truncate (AudioBuffer.sampleRate buffer)),
    (truncate (AudioBuffer.sampleRate buffer * ofNat blockAlign)%float),
    (Z.of_nat blockAlign), (Z.of_nat dataBytes).
  intros. reflexivity.
Qed.

Lemma audioBufferToWav_closed_form :
  audioBufferToWav = inr (wavHeader ++ wavSamples)%list.
Proof.
  unfold audioBufferToWav. rewrite writeHeader_fills. unfold andThen.
  assert (Hh : length wavHeader = 44) by reflexivity.
  pose proof (frameLoop_fills frames 0 wavHeader 0) as H.
  rewrite Hh, Nat.add_0_r in H.
  replace (frames * (2 * numChannels)) with dataBytes in H
    by (unfold dataBytes, bytesPerSample; lia).
  rewrite H. rewrite app_nil_r. reflexivity.
Qed.

Lemma wavSamples_length : length wavSamples = dataBytes.
Proof.
  unfold wavSamples.
  assert (H : forall start count,
            length (flat_map frameBytes (seq start count))
            = count * (2 * numChannels)).
  { intros start count. revert start.
    induction count as [|n IH]; intros start; [reflexivity|].
    cbn [seq flat_map]. rewrite length_app, IH, frameBytes_length. lia. }
  rewrite H. unfold dataBytes, bytesPerSample. lia.
Qed.

(** X18: the encoder never writes outside its buffer, and what it returns
    is the 44-byte RIFF/WAVE header followed by the samples as 16-bit
    little-endian integers, frame after frame and, within a frame, channel
    after channel. *)
Theorem audioBufferToWav_layout :
  audioBufferToWav = inr (wavHeader ++ wavSamples)%list
  /\ length wavHeader = 44
  /\ length wavSamples = dataBytes.
Proof.
  split; [apply audioBufferToWav_closed_form|].
  split; [reflexivity|apply wavSamples_length].
Qed.


(** Reading a field back, as [DataView.getUint16/32(offset, true)] does. *)
Fixpoint fromLittleEndian (bytes : list Z) : Z :=
  match bytes with
  | [] => 0
  | b :: rest => b + 256 * fromLittleEndian rest
  end%Z.

Definition getUint (width byteOffset : nat) (view : list Z) : Z :=
  fromLittleEndian (take width (drop byteOffset view)).

Lemma fromLittleEndian_littleEndian (width : nat) (v : Z) :
  fromLittleEndian (littleEndian width v) = (v mod 256 ^ Z.of_nat width)%Z.
Proof.
  revert v. induction width as [|width IH]; intros v.
  - simpl. rewrite Z.mod_1_r. reflexivity.
  - cbn [littleEndian fromLittleEndian]. rewrite IH.
    rewrite Nat2Z.inj_succ, Z.pow_succ_r by lia.
    rewrite Z.rem_mul_r by lia. reflexivity.
Qed.

Lemma littleEndian_bytes (width : nat) (v : Z) :
  Forall (fun b => (0 <= b < 256)%Z) (littleEndian width v).
Proof.
  revert v. induction width as [|width IH]; intros v; constructor.
  - apply Z.mod_pos_bound. lia.
  - apply IH.
Qed.

Lemma charCode_bytes (s : string) :
  Forall (fun b => (0 <= b < 256)%Z) (map charCode (String.list_ascii_of_string s)).
Proof.
  induction s as [|c s IH]; constructor; [|exact IH].
  unfold charCode. pose proof (Ascii.N_ascii_bounded c). lia.
Qed.

Lemma blocks_lookup {A} (f : nat -> list A) (size : nat) (l : list nat)
    (j r : nat) (x : nat) :
  (forall y, length (f y) = size) ->
  l !! j = Some x -> r < size ->
  flat_map f l !! (j * size + r) = f x !! r.
Proof.
  intros Hsize. revert j. induction l as [|y l IH]; intros j Hj Hr;
    [discriminate|].
  cbn [flat_map]. destruct j as [|j]; simpl in Hj.
  - injection Hj as ->. simpl. apply lookup_app_l. rewrite Hsize. exact Hr.
  - rewrite lookup_app_r by (rewrite Hsize; lia).
    rewrite Hsize.
    replace (S j * size + r - size) with (j * size + r) by lia.
    apply IH; assumption.
Qed.

(** X19: the sample of frame [i] and channel [channel] is found at byte
    [44 + 2 * (i * numChannels + channel)], where the 16-bit word read back
    is the scaled, clamped sample truncated to an integer, modulo 65536. *)
Theorem wav_sample_position (i channel : nat) :
  i < frames -> channel < numChannels ->
  let stored :=
    truncate (pcmValue (AudioBuffer.getChannelData buffer channel i)) in
  let position := 44 + 2 * (i * numChannels + channel) in
  exists wav,
    audioBufferToWav = inr wav
    /\ getUint 2 position wav = (stored mod 65536)%Z.
Proof.
  intros Hi Hc. cbv zeta. exists (wavHeader ++ wavSamples)%list.
  split; [apply audioBufferToWav_closed_form|].
  unfold getUint.
  assert (Hh : length wavHeader = 44) by reflexivity.
  rewrite drop_app_ge by lia. rewrite Hh.
  replace (44 + 2 * (i * numChannels + channel) - 44)
    with (i * (2 * numChannels) + 2 * channel) by lia.
  set (bytes := littleEndian 2
         (truncate (pcmValue (AudioBuffer.getChannelData buffer channel i)))).
  assert (Hat : forall r, r < 2 ->
            wavSamples !! (i * (2 * numChannels) + 2 * channel + r) = bytes !! r).
  { intros r Hr. unfold wavSamples.
    rewrite <- Nat.add_assoc.
    rewrite (blocks_lookup frameBytes (2 * numChannels) (seq 0 frames) i
               (2 * channel + r) i frameBytes_length);
      [|apply lookup_seq; lia|lia].
    unfold frameBytes.
    replace (2 * channel + r) with (channel * 2 + r) by lia.
    rewrite (blocks_lookup _ 2 (seq 0 numChannels) channel r channel);
      [reflexivity|reflexivity|apply lookup_seq; lia|exact Hr]. }
  assert (Htake : take 2 (drop (i * (2 * numChannels) + 2 * channel) wavSamples)
                  = bytes).
  { apply list_eq. intros r. destruct (decide (r < 2)) as [Hr|Hr].
    - rewrite lookup_take_lt by exact Hr. rewrite lookup_drop. apply Hat, Hr.
    - rewrite lookup_take_ge by lia. symmetry. apply lookup_ge_None.
      unfold bytes. simpl. lia. }
  rewrite Htake. unfold bytes. rewrite fromLittleEndian_littleEndian.
  reflexivity.
Qed.

(** X20: for a buffer whose file fits in 32 bits, the encoded file has
    [44 + 2 * channels * frames] bytes, every one of them a byte; it starts
    with "RIFF" and carries "WAVE" at offset 8; the RIFF size field is the
    file length less 8 and the data size field is the file length less 44;
    the format is PCM (1), the channel count and the block alignment are
    those of the buffer, and the sample width is 16 bits. *)
Theorem wav_chunk_sizes_match_file :
  (Z.of_nat (44 + dataBytes) < 2 ^ 32)%Z ->
  (Z.of_nat numChannels < 2 ^ 15)%Z ->
  exists wav,
    audioBufferToWav = inr wav
    /\ length wav = 44 + 2 * numChannels * frames
    /\ Forall (fun b => (0 <= b < 256)%Z) wav
    /\ take 4 wav = [82; 73; 70; 70]%Z
    /\ take 4 (drop 8 wav) = [87; 65; 86; 69]%Z
    /\ getUint 4 4 wav = Z.of_nat (length wav - 8)
    /\ getUint 4 40 wav = Z.of_nat (length wav - 44)
    /\ getUint 2 20 wav = 1%Z
    /\ getUint 2 22 wav = Z.of_nat numChannels
    /\ getUint 2 32 wav = Z.of_nat (2 * numChannels)
    /\ getUint 2 34 wav = 16%Z.
Proof.
  intros Hfit Hch. exists (wavHeader ++ wavSamples)%list.
  assert (Hs : length wavSamples = dataBytes).
  { unfold wavSamples.
    assert (H : forall start count,
              length (flat_map frameBytes (seq start count))
              = count * (2 * numChannels)).
    { intros start count. revert start.
      induction count as [|n IH]; intros start; [reflexivity|].
      cbn [seq flat_map]. rewrite length_app, IH, frameBytes_length. lia. }
    rewrite H. unfold dataBytes, bytesPerSample. lia. }
  assert (Hh : length wavHeader = 44) by reflexivity.
  assert (Hlen : length (wavHeader ++ wavSamples) = 44 + dataBytes)
    by (rewrite length_app, Hh, Hs; reflexivity).
  change (2 ^ 32)%Z with 4294967296%Z in Hfit.
  change (2 ^ 15)%Z with 32768%Z in Hch.
  split; [apply audioBufferToWav_closed_form|].
  split; [rewrite Hlen; unfold dataBytes, bytesPerSample; lia|].
  split.
  { apply Forall_app. split.
    - unfold wavHeader. rewrite !Forall_app.
      repeat split; try apply littleEndian_bytes; apply charCode_bytes.
    - unfold wavSamples. apply Forall_flat_map, Forall_forall. intros i _.
      unfold frameBytes. apply Forall_flat_map, Forall_forall. intros c _.
      apply littleEndian_bytes. }
  rewrite Hlen.
  replace (44 + dataBytes - 8) with (36 + dataBytes) by lia.
  replace (44 + dataBytes - 44) with dataBytes by lia.
  unfold getUint.
  repeat split; try reflexivity.
  - change (take 4 (drop 4 (wavHeader ++ wavSamples)))
      with (littleEndian 4 (Z.of_nat (36 + dataBytes))).
    rewrite fromLittleEndian_littleEndian. apply Z.mod_small.
    change (256 ^ Z.of_nat 4)%Z with 4294967296%Z. lia.
  - change (take 4 (drop 40 (wavHeader ++ wavSamples)))
      with (littleEndian 4 (Z.of_nat dataBytes)).
    rewrite fromLittleEndian_littleEndian. apply Z.mod_small.
    change (256 ^ Z.of_nat 4)%Z with 4294967296%Z. lia.
  - change (take 2 (drop 22 (wavHeader ++ wavSamples)))
      with (littleEndian 2 (Z.of_nat numChannels)).
    rewrite fromLittleEndian_littleEndian. apply Z.mod_small.
    change (256 ^ Z.of_nat 2)%Z with 65536%Z. lia.
  - change (take 2 (drop 32 (wavHeader ++ wavSamples)))
      with (littleEndian 2 (Z.of_nat blockAlign)).
    rewrite fromLittleEndian_littleEndian.
    unfold blockAlign, bytesPerSample.
    replace (numChannels * 2) with (2 * numChannels) by lia.
    apply Z.mod_small.
    change (256 ^ Z.of_nat 2)%Z with 65536%Z. lia.
Qed.

End Encode.

(** A one-channel buffer of four samples: silence, full scale both ways, and
    a value beyond full scale. *)
Definition sampleBuffer : AudioBuffer.t :=
  AudioBuffer.mk 1 44100%float 4
    (fun _ i => match i with
                | 0 => 0%float
                | 1 => 1%float
                | 2 => (-1)%float
                | _ => 2.5%float
                end).

Lemma wav_sample_position_witness :
  exists wav,
    audioBufferToWav sampleBuffer = inr wav
    /\ getUint 2 (44 + 2 * (2 * numChannels sampleBuffer + 0)) wav
       = (truncate (pcmValue (AudioBuffer.getChannelData sampleBuffer 0 2))
          mod 65536)%Z.
Proof.
  apply (wav_sample_position sampleBuffer 2 0).
  - unfold frames. simpl. lia.
  - unfold numChannels. simpl. lia.
Defined.

Lemma wav_chunk_sizes_match_file_witness :
  exists wav,
    audioBufferToWav sampleBuffer = inr wav
    /\ length wav = 44 + 2 * numChannels sampleBuffer * frames sampleBuffer
    /\ Forall (fun b => (0 <= b < 256)%Z) wav
    /\ take 4 wav = [82; 73; 70; 70]%Z
    /\ take 4 (drop 8 wav) = [87; 65; 86; 69]%Z
    /\ getUint 4 4 wav = Z.of_nat (length wav - 8)
    /\ getUint 4 40 wav = Z.of_nat (length wav - 44)
    /\ getUint 2 20 wav = 1%Z
    /\ getUint 2 22 wav = Z.of_nat (numChannels sampleBuffer)
    /\ getUint 2 32 wav = Z.of_nat (2 * numChannels sampleBuffer)
    /\ getUint 2 34 wav = 16%Z.
Proof.
  apply (wav_chunk_sizes_match_file sampleBuffer); reflexivity.
Defined.

End Wav.

(** ** Subscription lifecycles of the two bridges *)
Module Lifecycle.
Import Js Exn Surface Broadcast.

(** *** Supabase: channels over a run of lifecycle events *)

(** What can happen to the subscribing effect of [useSupabaseNotifications]:
    a pass of the effect, a status reported to the [subscribe] callback, or
    the cleanup of a pass that subscribed.  Such a pass ran with
    [enabled = true], which is the value its cleanup has captured. *)
Inductive SupabaseEvent : Type :=
  | Pass (enabled supabaseConfigured : bool) (g : NotificationGlobal.t)
  | StatusChange (status : SupabaseBridge.Status)
  | Cleanup (supabaseConfigured : bool).

Definition supabaseStep (b : SupabaseBridge.Bridge) (ev : SupabaseEvent)
  : SupabaseBridge.Bridge :=
  match ev with
  | Pass enabled configured g =>
      snd (SupabaseBridge.subscribeEffect enabled configured g b)
  | StatusChange status => SupabaseBridge.onStatus status b
  | Cleanup configured => SupabaseBridge.cleanup true configured b
  end.

Definition supabaseRun (evs : list SupabaseEvent) (b : SupabaseBridge.Bridge)
  : SupabaseBridge.Bridge :=
  fold_left supabaseStep evs b.

Definition isClosed (ev : SupabaseEvent) : bool :=
  match ev with
  | StatusChange SupabaseBridge.CLOSED => true
  | _ => false
  end.

(** The number of channels the next pass may still open. *)
Definition allowance (b : SupabaseBridge.Bridge) : nat :=
  match SupabaseBridge.subscriptionRef b with
  | Some _ => 0
  | None => 1
  end.

Lemma supabaseStep_budget b ev :
  SupabaseBridge.channels (supabaseStep b ev) + allowance (supabaseStep b ev)
  <= SupabaseBridge.channels b + allowance b + (if isClosed ev then 1 else 0).
Proof.
  destruct b as [[c|] opened], ev as [e k g|[| | |]|k];
    unfold allowance, supabaseStep; rewrite ?RealtimeBridge.subscribeEffect_run;
    unfold SupabaseBridge.onStatus, SupabaseBridge.cleanup; simpl;
    try destruct (negb e || negb k)%bool; simpl;
    try destruct (NotificationGlobal.thrownBy g); simpl; lia.
Qed.

(** X11: however lifecycle passes, statuses and cleanups interleave, the
    Supabase bridge opens at most one channel more than the number of
    [CLOSED] statuses it has received; the cleanup of a subscribing pass
    never releases the channel, and the guard always names a channel that
    was opened. *)
Theorem supabase_channels_bounded_by_closures
    (evs : list SupabaseEvent) (b : SupabaseBridge.Bridge) :
  SupabaseBridge.channels (supabaseRun evs b)
  <= SupabaseBridge.channels b + allowance b
     + length (List.filter isClosed evs)
  /\ (forall configured, SupabaseBridge.cleanup true configured b = b)
  /\ ((forall c, SupabaseBridge.subscriptionRef b = Some c ->
                 c < SupabaseBridge.channels b) ->
      forall c, SupabaseBridge.subscriptionRef (supabaseRun evs b) = Some c ->
                c < SupabaseBridge.channels (supabaseRun evs b)).
Proof.
  split; [|split].
  - enough (H : SupabaseBridge.channels (supabaseRun evs b)
                 + allowance (supabaseRun evs b)
                 <= SupabaseBridge.channels b + allowance b
                    + length (List.filter isClosed evs)) by lia.
    revert b. induction evs as [|ev evs IH]; intros b; simpl; [lia|].
    specialize (IH (supabaseStep b ev)).
    pose proof (supabaseStep_budget b ev) as Hstep.
    unfold supabaseRun in *. destruct (isClosed ev); simpl; lia.
  - intros configured. unfold SupabaseBridge.cleanup.
    destruct (SupabaseBridge.subscriptionRef b); reflexivity.
  - revert b. induction evs as [|ev evs IH]; intros b Hb; [exact Hb|].
    simpl. apply IH. clear IH.
    destruct b as [[c|] opened], ev as [e k g|[| | |]|k];
      unfold supabaseStep; rewrite ?RealtimeBridge.subscribeEffect_run;
      unfold SupabaseBridge.onStatus, SupabaseBridge.cleanup; simpl in *;
      try destruct (negb e || negb k)%bool; simpl;
      try destruct (NotificationGlobal.thrownBy g); simpl;
      try exact Hb; try discriminate.
    intros c' [= <-]. lia.
Qed.

(** *** Firebase: the listener and its cleanup *)

(** [subscriptionRef] of [useFirebaseNotifications], the [onValue]
    listeners that are attached, and the number attached so far; a
    listener is named by its rank. *)
Record FirebaseHook : Type := mkFirebaseHook {
  subscriptionRef : option nat;
  listeners : list nat;
  attached : nat
}.

(** One pass of the subscribing effect.  Past the two guards the body
    reads [Notification.permission] for the log line and again for the
    permission request, outside any [try]: when either statement throws,
    the pass ends there, before [onValue], and the exception leaves the
    effect. *)
Definition firebaseEffect (enabled databaseConfigured : bool)
    (g : NotificationGlobal.t) : M FirebaseHook unit :=
  if (negb enabled || negb databaseConfigured)%bool then ret tt
  else
    (h <- get ;;
     match subscriptionRef h with
     | Some _ => ret tt
     | None =>
         _ <- NotificationGlobal.readPermission g ;;
         NotificationGlobal.requestIfDefault g ;;
         modify (fun h => mkFirebaseHook (Some (attached h))
                                         (attached h :: listeners h)
                                         (S (attached h)))
     end)%js.

(** The cleanup: [subscriptionRef.current()] detaches the listener the ref
    holds, then the ref is cleared. *)
Definition firebaseCleanup (h : FirebaseHook) : FirebaseHook :=
  match subscriptionRef h with
  | Some l =>
      mkFirebaseHook None
        (List.filter (fun x => negb (Nat.eqb x l)) (listeners h)) (attached h)
  | None => h
  end.

(** A pass of the effect, with the [Notification] global it finds, or a
    cleanup. *)
Inductive FirebaseEvent : Type :=
  | FirebasePass (enabled databaseConfigured : bool) (g : NotificationGlobal.t)
  | FirebaseCleanup.

Definition firebaseStep (h : FirebaseHook) (ev : FirebaseEvent) : FirebaseHook :=
  match ev with
  | FirebasePass enabled configured g =>
      snd (firebaseEffect enabled configured g h)
  | FirebaseCleanup => firebaseCleanup h
  end.

Definition firebaseRun (evs : list FirebaseEvent) (h : FirebaseHook)
  : FirebaseHook :=
  fold_left firebaseStep evs h.

Definition unmounted : FirebaseHook := mkFirebaseHook None [] 0.

(** The ref holds exactly the attached listener, if any. *)
Definition consistent (h : FirebaseHook) : Prop :=
  listeners h = match subscriptionRef h with
                | Some l => [l]
                | None => []
                end.

(** A pass either does nothing, throws on the [Notification] global before
    anything is attached, or attaches one listener and sets the ref. *)
Lemma firebaseEffect_run enabled configured g h :
  firebaseEffect enabled configured g h
  = if (negb enabled || negb configured)%bool then (Returned tt, h)
    else
      match subscriptionRef h, NotificationGlobal.thrownBy g with
      | Some _, _ => (Returned tt, h)
      | None, Some err => (Threw err, h)
      | None, None =>
          (Returned tt,
           mkFirebaseHook (Some (attached h)) (attached h :: listeners h)
                          (S (attached h)))
      end.
Proof.
  unfold firebaseEffect, bind, get, modify, ret,
    NotificationGlobal.requestIfDefault, NotificationGlobal.readPermission,
    NotificationGlobal.thrownBy, bind, throw, ret.
  destruct (negb enabled || negb configured)%bool; [reflexivity|]. simpl.
  destruct (subscriptionRef h); [reflexivity|].
  destruct g as [message|[| |] [err|]]; reflexivity.
Qed.

Lemma firebaseStep_consistent h ev : consistent h -> consistent (firebaseStep h ev).
Proof.
  unfold consistent, firebaseStep, firebaseCleanup.
  destruct ev as [e d g|]; [rewrite firebaseEffect_run|].
  - destruct h as [[l|] ls n]; simpl; intros ->;
      destruct (negb e || negb d)%bool; simpl; try reflexivity.
    destruct (NotificationGlobal.thrownBy g); reflexivity.
  - destruct h as [[l|] ls n]; simpl; intros ->; simpl;
      rewrite ?Nat.eqb_refl; reflexivity.
Qed.

(** X12: over any interleaving of effect passes and cleanups from the
    unmounted hook, the Firebase bridge has at most one listener attached,
    and the guard is set exactly when one is; a cleanup always leaves no
    listener behind.  A pass of an enabled, configured hook returns with
    exactly one listener attached, except when none is attached yet and
    reading the [Notification] global throws (the API is absent, or it is
    the callback-based one and permission is still to be asked): that pass
    throws before [onValue] and attaches nothing. *)
Theorem firebase_at_most_one_listener
    (evs : list FirebaseEvent) (g : NotificationGlobal.t) :
  let h := firebaseRun evs unmounted in
  consistent h
  /\ length (listeners h) <= 1
  /\ (subscriptionRef h = None <-> listeners h = [])
  /\ listeners (firebaseCleanup h) = []
  /\ match subscriptionRef h, NotificationGlobal.thrownBy g with
     | None, Some err => firebaseEffect true true g h = (Threw err, h)
     | _, _ =>
         fst (firebaseEffect true true g h) = Returned tt
         /\ length (listeners (snd (firebaseEffect true true g h))) = 1
     end.
Proof.
  cbv zeta.
  assert (H : consistent (firebaseRun evs unmounted)).
  { unfold firebaseRun. generalize unmounted, (eq_refl : consistent unmounted).
    induction evs as [|ev evs IH]; intros h Hh; [exact Hh|].
    simpl. apply IH, firebaseStep_consistent, Hh. }
  split; [exact H|]. unfold consistent in H.
  rewrite firebaseEffect_run. unfold firebaseCleanup.
  destruct (firebaseRun evs unmounted) as [[l|] ls n]; simpl in *; subst ls;
    simpl; rewrite ?Nat.eqb_refl;
    destruct (NotificationGlobal.thrownBy g);
    repeat split; auto; try discriminate.
Qed.

(** *** The dashboard's test broadcast *)

(** The record [handleSendTestNotification] writes under a fresh push key;
    [language] is the operator's interface language, [timestamp] what the
    server stores for [serverTimestamp()]. *)
Definition testBroadcast (language : Language) (timestamp : string) : Message :=
  {| id := Undefined;
     title := Value (if is_ru language then "⚠️ ТЕСТ: Землетрясение M5.0"
                     else "⚠️ TEST: Earthquake M5.0");
     body := Value (if is_ru language
                    then "Это тестовое уведомление от администратора"
                    else "This is a test notification from admin");
     Broadcast.language := Some "all";
     sound := Some true;
     created_at := None;
     sent_at := Some timestamp |}.

(** X13: a test broadcast sent from the dashboard, once it is the last
    record of a snapshot, reaches every viewer whose notifications are
    supported and granted, whatever the viewer's language: the audio
    context is activated, one notification in the operator's language is
    raised under a tag built from the viewer's clock (the record has no
    id), and the tone is played. *)
Theorem test_broadcast_reaches_permitted_viewers
    (v : Viewer) (viewerLanguage operatorLanguage : Language)
    (timestamp key : string) (older : list (string * option Message)) :
  notificationSupported v = true ->
  granted v = true ->
  let message := testBroadcast operatorLanguage timestamp in
  FirebaseBridge.onValue v viewerLanguage
    (Some (older ++ [(key, Some message)])%list)
  = [ ActivateAudioContext;
      NewNotification (Broadcast.text (title message))
                      (Broadcast.text (body message))
                      ("earthquake-monitor-" ++ nowText v) false;
      PlayAlertSound ].
Proof.
  intros Hsup Hgr. cbv zeta. rewrite RealtimeBridge.onValue_last.
  unfold FirebaseBridge.deliver. rewrite Hsup, Hgr.
  destruct viewerLanguage, operatorLanguage; reflexivity.
Qed.

Lemma test_broadcast_reaches_permitted_viewers_witness :
  let message := testBroadcast En "1700000000000" in
  FirebaseBridge.onValue RealtimeBridge.readyViewer Ru
    (Some ([("-N1", Some RealtimeBridge.russianOnly)]
           ++ [("-N2", Some message)])%list)
  = [ ActivateAudioContext;
      NewNotification (Broadcast.text (title message))
                      (Broadcast.text (body message))
                      ("earthquake-monitor-" ++ nowText RealtimeBridge.readyViewer)
                      false;
      PlayAlertSound ].
Proof.
  apply (test_broadcast_reaches_permitted_viewers RealtimeBridge.readyViewer
           Ru En "1700000000000" "-N2" [("-N1", Some RealtimeBridge.russianOnly)]);
    reflexivity.
Defined.

End Lifecycle.

(** ** Place-name translation ([translateText], [translateWithCache],
       [useTranslatedEarthquakes]) *)
Module I18n.
Import Js Exn.

(** What one request to the translation service comes to: [fetch] or
    [response.json()] rejects or the body is [null] (reading a member
    throws), the body carries no truthy [responseData.translatedText], or
    it carries one. *)
Definition Answer : Type := Thrown + option string.

(** The service: the answer to the [n]-th request, given the encoded
    query. *)
Definition Service : Type := nat -> string -> Answer.

(** The module-level [translationCache] and the requests made so far. *)
Record Translator : Type := mkTranslator {
  translationCache : gmap string string;
  requests : nat
}.

(** A call of [translateText] that has sent its request, or has failed to
    encode the text, and now waits: the text and, if a request went out,
    its rank and query. *)
Record InFlight : Type := mkInFlight {
  flightText : string;
  flightRequest : option (nat * string)
}.

(** A call of [translateWithCache] at its first suspension: it has already
    returned (English, or a cache hit), or it waits at
    [await translateText(...)]. *)
Inductive Started : Type :=
  | Resolved (value : string)
  | Suspended (flight : InFlight).

Section Translate.

(** [encodeURIComponent], which throws a [URIError] on a lone surrogate. *)
Variable encodeURIComponent : string -> Thrown + string.

Variable service : Service.

(** [await fetch(...)] with the encoded query, followed by
    [await response.json()] and the reads of
    [data.responseData.translatedText]. *)
Definition request (text : string) : M Translator (option string) :=
  (q <- await (encodeURIComponent text) ;;
   fun st =>
     let st' := mkTranslator (translationCache st) (S (requests st)) in
     match service (requests st) q with
     | inl e => (Threw e, st')
     | inr answer => (Returned answer, st')
     end)%js.

(** [export async function translateText(text, targetLang)] *)
Definition translateText (text : string) (targetLang : Language)
  : M Translator string :=
  match targetLang with
  | En => ret text
  | Ru =>
      tryCatch
        (answer <- request text ;;
         match answer with
         | Some translated =>
             if str_falsy translated then ret text else ret translated
         | None => ret text
         end)%js
        (fun _ => ret text)
  end.

(** [`${text}|${targetLang}`] *)
Definition cacheKey (text : string) (targetLang : Language) : string :=
  text ++ "|" ++ language_tag targetLang.

(** [export async function translateWithCache(text, targetLang)], run to
    its end with no other call in between. *)
Definition translateWithCache (text : string) (targetLang : Language)
  : M Translator string :=
  match targetLang with
  | En => ret text
  | Ru =>
      (st <- get ;;
       match translationCache st !! cacheKey text targetLang with
       | Some cached => ret cached
       | None =>
           translated <- translateText text targetLang ;;
           modify (fun st => mkTranslator
                               (<[cacheKey text targetLang := translated]>
                                  (translationCache st))
                               (requests st)) ;;
           ret translated
       end)%js
  end.

(** *** The same functions, cut at their [await]s

    An [async] function runs synchronously up to its first [await]; what
    follows runs later, and other calls may run in between. *)

(** [translateText] for Russian up to [await fetch(...)]: the query is
    encoded and the request goes out. *)
Definition issue (text : string) (st : Translator) : InFlight * Translator :=
  match encodeURIComponent text with
  | inl _ => (mkInFlight text None, st)
  | inr q =>
      (mkInFlight text (Some (requests st, q)),
       mkTranslator (translationCache st) (S (requests st)))
  end.

(** What the suspended [translateText] resolves with once its request has
    settled. *)
Definition settle (flight : InFlight) : string :=
  match flightRequest flight with
  | None => flightText flight
  | Some (n, q) =>
      match service n q with
      | inr (Some translated) =>
          if str_falsy translated then flightText flight else translated
      | _ => flightText flight
      end
  end.

(** [translateWithCache] up to [await translateText(...)]. *)
Definition start (text : string) (targetLang : Language) (st : Translator)
  : Started * Translator :=
  match targetLang with
  | En => (Resolved text, st)
  | Ru =>
      match translationCache st !! cacheKey text Ru with
      | Some cached => (Resolved cached, st)
      | None =>
          let '(flight, st') := issue text st in
          (Suspended flight, st')
      end
  end.

(** [translateWithCache] after the [await]: the result is cached under the
    key computed before the suspension, and returned. *)
Definition resume (flight : InFlight) (st : Translator) : string * Translator :=
  (settle flight,
   mkTranslator (<[cacheKey (flightText flight) Ru := settle flight]>
                   (translationCache st))
                (requests st)).

(** *** [translateAll] of [useTranslatedEarthquakes]

    [earthquakes.map(async (quake) => ...)] runs every callback up to its
    [await translateWithCache(...)], in the order of the list; the
    suspended calls resume later, in the order in which their requests
    settle; [Promise.all] resolves with the results in the order of the
    list. *)
Fixpoint startAll (places : list string) (targetLang : Language)
    (st : Translator) : list Started * Translator :=
  match places with
  | [] => ([], st)
  | place :: rest =>
      let '(started, st1) := start place targetLang st in
      let '(others, st2) := startAll rest targetLang st1 in
      (started :: others, st2)
  end.

Definition resumeAll (order : list InFlight) (st : Translator) : Translator :=
  fold_left (fun st flight => snd (resume flight st)) order st.

(** The calls that are suspended, in the order they were started. *)
Definition suspended (calls : list Started) : list InFlight :=
  flat_map (fun call => match call with
                        | Resolved _ => []
                        | Suspended flight => [flight]
                        end) calls.

(** What each call resolves with. *)
Definition resultOf (call : Started) : string :=
  match call with
  | Resolved value => value
  | Suspended flight => settle flight
  end.

(** The translated places and the translator once every call has resumed;
    [order] lists the suspended calls in the order of their resumption. *)
Definition translateAll (places : list string) (targetLang : Language)
    (order : list InFlight) (st : Translator) : list string * Translator :=
  let '(calls, st') := startAll places targetLang st in
  (map resultOf calls, resumeAll order st').

(** Interleavings in general: a call starts, or a suspended call resumes. *)
Inductive Event : Type :=
  | Calls (text : string)
  | Resumes (flight : InFlight).

Definition step (st : Translator) (ev : Event) : Translator :=
  match ev with
  | Calls text => snd (start text Ru st)
  | Resumes flight => snd (resume flight st)
  end.

Definition run (evs : list Event) (st : Translator) : Translator :=
  fold_left step evs st.

End Translate.

(** An encoder that accepts every text. *)
Definition encodes : string -> Thrown + string := fun text => inr text.

Definition emptyTranslator : Translator := mkTranslator ∅ 0.

Lemma length_append (s1 s2 : string) :
  String.length (s1 ++ s2) = String.length s1 + String.length s2.
Proof. induction s1 as [|c s1 IH]; simpl; [reflexivity|]. rewrite IH. reflexivity. Qed.

Lemma append_cancel_r (s1 s2 t : string) : s1 ++ t = s2 ++ t -> s1 = s2.
Proof.
  revert s2. induction s1 as [|c s1 IH]; intros [|d s2] H; simpl in H.
  - reflexivity.
  - apply (f_equal String.length) in H.
    rewrite ?length_append in H. simpl in H. rewrite ?length_append in H. lia.
  - apply (f_equal String.length) in H.
    rewrite ?length_append in H. simpl in H. rewrite ?length_append in H. lia.
  - injection H as -> H. f_equal. apply IH. exact H.
Qed.

Lemma cacheKey_inj (t1 t2 : string) (l : Language) :
  cacheKey t1 l = cacheKey t2 l -> t1 = t2.
Proof. unfold cacheKey. apply append_cancel_r. Qed.

(** [translateText] is [issue] followed by [settle]. *)
Lemma translateText_issue_settle encode service text st :
  translateText encode service text Ru st
  = let '(flight, st') := issue encode text st in
    (Returned (settle service flight), st').
Proof.
  unfold translateText, request, tryCatch, bind, await, throw, ret, issue, settle.
  destruct (encode text) as [e|q]; simpl; [reflexivity|].
  destruct (service (requests st) q) as [e|[translated|]]; simpl;
    try reflexivity.
  destruct (str_falsy translated); reflexivity.
Qed.

(** X14: [translateText] never rejects and leaves the cache alone.  For
    English it returns the text without a request.  For Russian it sends
    one request, unless the text cannot be encoded, and it returns the
    translation the service gives whenever that is a non-empty string; in
    every other case (the text cannot be encoded, the request fails, the
    answer carries no translation or an empty one) it returns the text
    itself. *)
Theorem translateText_falls_back_to_original
    (encode : string -> Thrown + string) (service : Service)
    (text : string) (targetLang : Language) (st : Translator) :
  let '(outcome, st') := translateText encode service text targetLang st in
  translationCache st' = translationCache st
  /\ match targetLang with
     | En => outcome = Returned text /\ st' = st
     | Ru =>
         match encode text with
         | inl _ => outcome = Returned text /\ st' = st
         | inr q =>
             requests st' = S (requests st)
             /\ outcome
                = Returned
                    (match service (requests st) q with
                     | inr (Some translated) =>
                         if str_falsy translated then text else translated
                     | _ => text
                     end)
         end
     end.
Proof.
  destruct targetLang; [repeat split|].
  rewrite translateText_issue_settle. unfold issue, settle.
  destruct st as [cache n].
  destruct (encode text) as [e|q]; simpl; repeat split.
Qed.

(** *** Caching, and calls that overlap *)

(** Alone, a call of [translateWithCache] is [start] followed at once by
    [resume]. *)
Lemma translateWithCache_start_resume encode service text targetLang st :
  translateWithCache encode service text targetLang st
  = match start encode text targetLang st with
    | (Resolved value, st') => (Returned value, st')
    | (Suspended flight, st') =>
        (Returned (settle service flight), snd (resume service flight st'))
    end.
Proof.
  destruct targetLang; [reflexivity|].
  unfold translateWithCache, start, bind, get, ret, modify.
  destruct (translationCache st !! cacheKey text Ru) eqn:Hhit; [reflexivity|].
  rewrite translateText_issue_settle. unfold issue, resume.
  destruct (encode text) as [e|q]; reflexivity.
Qed.

(** A call that starts sends a request exactly when the text is not cached
    and can be encoded. *)
Definition needsRequest (encode : string -> Thrown + string) (st : Translator)
    (text : string) : bool :=
  match translationCache st !! cacheKey text Ru, encode text with
  | None, inr _ => true
  | _, _ => false
  end.

(** What a call for [place] resolves with when it finds the cache as it is
    in [st] and, on a miss, sends the request of the given rank. *)
Definition resolvesWith (encode : string -> Thrown + string) (service : Service)
    (st : Translator) (rank : nat) (place : string) : string :=
  match translationCache st !! cacheKey place Ru with
  | Some cached => cached
  | None =>
      match encode place with
      | inl _ => place
      | inr q =>
          match service rank q with
          | inr (Some translated) =>
              if str_falsy translated then place else translated
          | _ => place
          end
      end
  end.

Lemma start_run encode service text st :
  let '(call, st') := start encode text Ru st in
  translationCache st' = translationCache st
  /\ requests st' = requests st + (if needsRequest encode st text then 1 else 0)
  /\ resultOf service call = resolvesWith encode service st (requests st) text
  /\ (translationCache st !! cacheKey text Ru = None ->
      exists flight, call = Suspended flight /\ flightText flight = text).
Proof.
  unfold start, issue, needsRequest, resolvesWith.
  destruct (translationCache st !! cacheKey text Ru) as [cached|];
    [simpl; repeat split; (lia || discriminate)|].
  destruct (encode text) as [e|q]; simpl.
  - repeat split; [lia|]. intros _. eexists. split; reflexivity.
  - repeat split; [lia|]. intros _. eexists. split; reflexivity.
Qed.

Lemma needsRequest_cache encode st st' text :
  translationCache st' = translationCache st ->
  needsRequest encode st' text = needsRequest encode st text.
Proof. unfold needsRequest. intros ->. reflexivity. Qed.

Lemma resolvesWith_cache encode service st st' rank place :
  translationCache st' = translationCache st ->
  resolvesWith encode service st' rank place
  = resolvesWith encode service st rank place.
Proof. unfold resolvesWith. intros ->. reflexivity. Qed.

Lemma startAll_run encode service places st :
  let '(calls, st') := startAll encode places Ru st in
  translationCache st' = translationCache st
  /\ requests st'
     = requests st + length (List.filter (needsRequest encode st) places)
  /\ (forall i place,
        places !! i = Some place ->
        map (resultOf service) calls !! i
        = Some (resolvesWith encode service st
                  (requests st
                   + length (List.filter (needsRequest encode st) (take i places)))
                  place))
  /\ (forall place,
        In place places ->
        translationCache st !! cacheKey place Ru = None ->
        exists flight, In flight (suspended calls) /\ flightText flight = place).
Proof.
  revert st. induction places as [|place rest IH]; intros st.
  - simpl. repeat split; [lia|intros i ? [=]|intros ? []].
  - cbn [startAll].
    pose proof (start_run encode service place st) as H1.
    destruct (start encode place Ru st) as [call st1].
    destruct H1 as (C1 & R1 & V1 & F1).
    specialize (IH st1).
    destruct (startAll encode rest Ru st1) as [calls st2].
    destruct IH as (C2 & R2 & V2 & F2).
    assert (Hsame : forall l, List.filter (needsRequest encode st1) l
                              = List.filter (needsRequest encode st) l).
    { intros l. apply filter_ext. intros t.
      apply needsRequest_cache. exact C1. }
    split; [congruence|]. split; [|split].
    + rewrite R2, R1, Hsame. cbn [List.filter].
      destruct (needsRequest encode st place); simpl; lia.
    + intros [|i] t Ht; simpl in Ht.
      * injection Ht as <-. simpl. rewrite V1. do 2 f_equal. lia.
      * simpl. rewrite (V2 i t Ht), Hsame, R1.
        rewrite (resolvesWith_cache encode service st st1 _ t C1).
        do 2 f_equal.
        destruct (needsRequest encode st place); simpl; lia.
    + intros t [<-|Hin] Hmiss.
      * destruct (F1 Hmiss) as (flight & -> & Htext).
        exists flight. split; [left; reflexivity|exact Htext].
      * rewrite <- C1 in Hmiss.
        destruct (F2 t Hin Hmiss) as (flight & Hf & Htext).
        exists flight. split; [|exact Htext].
        unfold suspended in *. simpl. apply in_or_app. right. exact Hf.
Qed.

(** Entries are never removed from the cache, and a call that resumes
    leaves an entry for its text. *)
Lemma resume_keeps service flight st key :
  is_Some (translationCache st !! key) ->
  is_Some (translationCache (snd (resume service flight st)) !! key).
Proof.
  intros H. unfold resume. simpl.
  destruct (decide (cacheKey (flightText flight) Ru = key)) as [<-|Hne].
  - rewrite lookup_insert_eq. eexists; reflexivity.
  - rewrite lookup_insert_ne by exact Hne. exact H.
Qed.

Lemma step_keeps encode service st ev key :
  is_Some (translationCache st !! key) ->
  is_Some (translationCache (step encode service st ev) !! key).
Proof.
  intros H. destruct ev as [text|flight]; unfold step.
  - pose proof (start_run encode service text st) as Hs.
    destruct (start encode text Ru st) as [call st'].
    destruct Hs as [Hc _]. simpl. rewrite Hc. exact H.
  - apply resume_keeps. exact H.
Qed.

Lemma run_keeps encode service evs st key :
  is_Some (translationCache st !! key) ->
  is_Some (translationCache (run encode service evs st) !! key).
Proof.
  revert st. induction evs as [|ev evs IH]; intros st H; [exact H|].
  simpl. apply IH, step_keeps, H.
Qed.

Lemma resumeAll_run service order st :
  requests (resumeAll service order st) = requests st
  /\ (forall key, is_Some (translationCache st !! key) ->
                  is_Some (translationCache (resumeAll service order st) !! key))
  /\ (forall flight, In flight order ->
        is_Some (translationCache (resumeAll service order st)
                   !! cacheKey (flightText flight) Ru)).
Proof.
  revert st. induction order as [|f order IH]; intros st.
  - simpl. repeat split; [tauto|intros ? []].
  - change (resumeAll service (f :: order) st)
      with (resumeAll service order (snd (resume service f st))).
    destruct (IH (snd (resume service f st))) as (R & K & N).
    split; [rewrite R; reflexivity|]. split.
    + intros key H. apply K, resume_keeps, H.
    + intros flight [<-|Hin]; [|apply N, Hin].
      apply K. unfold resume. simpl. rewrite lookup_insert_eq.
      eexists; reflexivity.
Qed.

(** X15: the cache of [translateWithCache].  A call that runs alone is
    [start] followed at once by [resume].  Once a call has resumed, every
    call that starts later for its text, whatever has started or resumed
    in between, finds an entry and returns it without a request.  Calls
    that overlap do not share a request: in a batch translated under
    [Promise.all] every place that is not cached when the batch starts and
    can be encoded is requested once per occurrence, so a place that
    occurs twice is requested twice; each call resolves with what it
    would resolve with alone against the cache as the batch found it, its
    request ranked by the requests of the places before it; and when all
    calls have resumed, in whatever order, every place of the batch is
    cached. *)
Theorem translateWithCache_requests_once_per_miss
    (encode : string -> Thrown + string) (service : Service)
    (text : string) (flight : InFlight) (evs : list Event)
    (places : list string) (order : list InFlight) (st : Translator) :
  Permutation order (suspended (fst (startAll encode places Ru st))) ->
  translateWithCache encode service text Ru st
  = match start encode text Ru st with
    | (Resolved value, st') => (Returned value, st')
    | (Suspended waiting, st') =>
        (Returned (settle service waiting), snd (resume service waiting st'))
    end
  /\ (let st' := run encode service evs (snd (resume service flight st)) in
      exists cached,
        start encode (flightText flight) Ru st' = (Resolved cached, st'))
  /\ (let '(results, st') := translateAll encode service places Ru order st in
      requests st'
      = requests st + length (List.filter (needsRequest encode st) places)
      /\ (forall i place,
            places !! i = Some place ->
            results !! i
            = Some (resolvesWith encode service st
                      (requests st
                       + length (List.filter (needsRequest encode st)
                                             (take i places)))
                      place))
      /\ forall place, In place places ->
           is_Some (translationCache st' !! cacheKey place Ru)).
Proof.
  intros Hperm. split; [apply translateWithCache_start_resume|]. split.
  - cbv zeta.
    assert (H : is_Some (translationCache
                           (run encode service evs (snd (resume service flight st)))
                           !! cacheKey (flightText flight) Ru)).
    { apply run_keeps. unfold resume. simpl. rewrite lookup_insert_eq.
      eexists; reflexivity. }
    destruct H as [cached H]. exists cached. unfold start. rewrite H.
    reflexivity.
  - unfold translateAll.
    pose proof (startAll_run encode service places st) as Hs.
    destruct (startAll encode places Ru st) as [calls st1].
    destruct Hs as (C1 & R1 & V1 & F1). simpl in Hperm.
    destruct (resumeAll_run service order st1) as (R2 & K2 & N2).
    split; [rewrite R2; exact R1|]. split; [exact V1|].
    intros place Hin.
    destruct (translationCache st !! cacheKey place Ru) as [cached|] eqn:Hc.
    + apply K2. rewrite C1, Hc. eexists; reflexivity.
    + destruct (F1 place Hin Hc) as (waiting & Hw & <-).
      apply N2. apply (Permutation_in _ (Permutation_sym Hperm)). exact Hw.
Qed.

(** A service that translates for the first request only, a batch with a
    place that occurs twice, and an order of arrival in which the second
    request settles first. *)
Definition answersOnce : Service :=
  fun n _ => if Nat.eqb n 0 then inr (Some "Мёртвое море")
             else inl (ErrorObject "Failed to fetch").

Definition samplePlaces : list string := ["Dead Sea"; "Haifa"; "Dead Sea"].

Definition arrivalOrder : list InFlight :=
  [ mkInFlight "Haifa" (Some (1, "Haifa"));
    mkInFlight "Dead Sea" (Some (0, "Dead Sea"));
    mkInFlight "Dead Sea" (Some (2, "Dead Sea")) ].

(** The place that occurs twice is requested twice, and its two calls
    resolve with different strings. *)
Lemma overlapping_calls_each_send_a_request :
  let '(results, st') :=
    translateAll encodes answersOnce samplePlaces Ru arrivalOrder emptyTranslator in
  results = ["Мёртвое море"; "Haifa"; "Dead Sea"]
  /\ requests st' = 3
  /\ translationCache st' !! cacheKey "Dead Sea" Ru = Some "Dead Sea".
Proof. vm_compute. repeat split. Qed.

(** X15 at that batch. *)
Lemma translateWithCache_requests_once_per_miss_witness :
  translateWithCache encodes answersOnce "Dead Sea" Ru emptyTranslator
  = match start encodes "Dead Sea" Ru emptyTranslator with
    | (Resolved value, st') => (Returned value, st')
    | (Suspended waiting, st') =>
        (Returned (settle answersOnce waiting),
         snd (resume answersOnce waiting st'))
    end
  /\ (let st' := run encodes answersOnce [Calls "Haifa"]
                   (snd (resume answersOnce (mkInFlight "Dead Sea" None)
                           emptyTranslator)) in
      exists cached,
        start encodes (flightText (mkInFlight "Dead Sea" None)) Ru st'
        = (Resolved cached, st'))
  /\ (let '(results, st') :=
        translateAll encodes answersOnce samplePlaces Ru arrivalOrder
                     emptyTranslator in
      requests st'
      = requests emptyTranslator
        + length (List.filter (needsRequest encodes emptyTranslator) samplePlaces)
      /\ (forall i place,
            samplePlaces !! i = Some place ->
            results !! i
            = Some (resolvesWith encodes answersOnce emptyTranslator
                      (requests emptyTranslator
                       + length (List.filter
                                   (needsRequest encodes emptyTranslator)
                                   (take i samplePlaces)))
                      place))
      /\ forall place, In place samplePlaces ->
           is_Some (translationCache st' !! cacheKey place Ru)).
Proof.
  apply (translateWithCache_requests_once_per_miss encodes answersOnce
           "Dead Sea" (mkInFlight "Dead Sea" None) [Calls "Haifa"]
           samplePlaces arrivalOrder emptyTranslator).
  vm_compute. apply perm_swap.
Defined.

End I18n.

(** ** Operator login ([AdminPanel]) *)
Module AdminPanel.
Import Js Exn.

Definition ADMIN_USERNAME : string := "admin".

Definition ADMIN_PASSWORD_HASH : string :=
  "02e6c6ea265d0acfa0debcd8d416c5fc9c86f6775ca9b88d5c0dd320ec4c16de".

Definition authKey : string := "monitor_admin_auth".

(** [localStorage] and the [isAuthenticated] state cell. *)
Record Panel : Type := mkPanel {
  localStorage : gmap string string;
  isAuthenticated : bool
}.

Section Login.

(** [sha256(message)]: the hex digest, or the rejection of
    [crypto.subtle.digest]. *)
Variable sha256 : string -> Thrown + string.

(** [const handleLogin = async (username, password) => ...] *)
Definition handleLogin (username password : string) : M Panel bool :=
  if negb (String.eqb username ADMIN_USERNAME) then ret false
  else
    tryCatch
      (passwordHash <- await (sha256 password) ;;
       if String.eqb passwordHash ADMIN_PASSWORD_HASH
       then
         modify (fun p => mkPanel (<[authKey := "authenticated"]> (localStorage p))
                                  true) ;;
         ret true
       else ret false)%js
      (fun _ => ret false).

End Login.

(** [handleLogout] *)
Definition handleLogout (p : Panel) : Panel :=
  mkPanel (delete authKey (localStorage p)) false.

(** The mount effect, which reads the stored flag. *)
Definition mountEffect (p : Panel) : Panel :=
  match localStorage p !! authKey with
  | Some status =>
      if String.eqb status "authenticated"
      then mkPanel (localStorage p) true
      else p
  | None => p
  end.

(** A reload: the component state starts over, the storage stays. *)
Definition reload (p : Panel) : Panel :=
  mountEffect (mkPanel (localStorage p) false).

(** A digest function for the samples. *)
Definition sampleDigest (message : string) : Thrown + string :=
  if String.eqb message "letmein" then inr ADMIN_PASSWORD_HASH
  else inr "0000".

(** Whether the credentials are the operator's. *)
Definition accepts (sha256 : string -> Thrown + string)
    (username password : string) : bool :=
  (String.eqb username ADMIN_USERNAME
   && match sha256 password with
      | inr h => String.eqb h ADMIN_PASSWORD_HASH
      | inl _ => false
      end)%bool.

Lemma handleLogin_run sha256 username password p :
  handleLogin sha256 username password p
  = (Returned (accepts sha256 username password),
     if accepts sha256 username password
     then mkPanel (<[authKey := "authenticated"]> (localStorage p)) true
     else p).
Proof.
  unfold handleLogin, accepts, tryCatch, bind, await, throw, ret, modify.
  destruct (String.eqb username ADMIN_USERNAME); simpl; [|reflexivity].
  destruct (sha256 password) as [e|h]; simpl; [reflexivity|].
  destruct (String.eqb h ADMIN_PASSWORD_HASH); reflexivity.
Qed.


(** X17: the login survives a reload and the logout does too: after an
    accepted login a reloaded panel is authenticated; after a logout a
    reloaded panel is not, whatever was stored before; and a logout that
    follows a login on a storage without the flag restores that
    storage. *)
Theorem login_state_survives_reload
    (sha256 : string -> Thrown + string) (username password : string)
    (p : Panel) :
  fst (handleLogin sha256 username password p) = Returned true ->
  isAuthenticated (reload (snd (handleLogin sha256 username password p))) = true
  /\ isAuthenticated (reload (handleLogout p)) = false
  /\ isAuthenticated
       (reload (handleLogout (snd (handleLogin sha256 username password p))))
     = false
  /\ (localStorage p !! authKey = None ->
      localStorage (handleLogout (snd (handleLogin sha256 username password p)))
      = localStorage p).
Proof.
  rewrite (handleLogin_run sha256 username password p). simpl.
  intros [= Hacc]. rewrite Hacc.
  unfold reload, mountEffect, handleLogout. simpl.
  rewrite lookup_insert_eq, !lookup_delete_eq. simpl.
  repeat split.
  intros Hnone. rewrite delete_insert_eq. apply delete_id. exact Hnone.
Qed.

Lemma login_state_survives_reload_witness :
  let p := mkPanel ∅ false in
  isAuthenticated (reload (snd (handleLogin sampleDigest "admin" "letmein" p)))
  = true
  /\ isAuthenticated (reload (handleLogout p)) = false
  /\ isAuthenticated
       (reload (handleLogout (snd (handleLogin sampleDigest "admin" "letmein" p))))
     = false
  /\ (localStorage p !! authKey = None ->
      localStorage (handleLogout (snd (handleLogin sampleDigest "admin" "letmein" p)))
      = localStorage p).
Proof.
  apply (login_state_survives_reload sampleDigest "admin" "letmein"
           (mkPanel ∅ false)).
  reflexivity.
Defined.

End AdminPanel.

(** ** Session registration and heartbeat ([registerSession]) *)
Module Presence.
Import Js Exn.

(** How the store answers one request: it resolves without an error, it
    resolves with an error carrying a code, or the request rejects. *)
Inductive StoreAnswer : Type :=
  | Done
  | Failed (code : string)
  | Rejects (err : Thrown).

(** The requests a registration sends. *)
Inductive StoreOp : Type :=
  | InsertSession (sessionId : string)
  | UpdateSession (sessionId : string)
  | SetSession (sessionId : string).

(** The requests sent so far, latest first, and the sessions whose
    30-second heartbeat timer is pending. *)
Record Registry : Type := mkRegistry {
  sent : list StoreOp;
  heartbeats : list string
}.

Section Register.

(** The store: the answer to the [n]-th request. *)
Variable store : nat -> StoreAnswer.

(** The [Notification] global of the browser. *)
Variable g : NotificationGlobal.t.

Definition send (op : StoreOp) : M Registry StoreAnswer :=
  fun r =>
    let r' := mkRegistry (op :: sent r) (heartbeats r) in
    match store (length (sent r)) with
    | Rejects e => (Threw e, r')
    | answer => (Returned answer, r')
    end.

(** [setInterval(..., 30000)] *)
Definition startHeartbeat (sessionId : string) : M Registry unit :=
  modify (fun r => mkRegistry (sent r) (sessionId :: heartbeats r)).

(** [registerSession] of [useSupabaseNotifications], which runs only where
    the client is configured: the session data are built, reading
    [Notification.permission]; then insert, update on a unique violation
    (its argument reads the permission again), then the heartbeat.  The
    whole body is in one [try] whose [catch] only logs. *)
Definition registerSessionSupabase (sessionId : string) : M Registry unit :=
  tryCatch
    (_ <- NotificationGlobal.readPermission g ;;
     inserted <- send (InsertSession sessionId) ;;
     match inserted with
     | Failed code =>
         if String.eqb code "23505"
         then
           _ <- NotificationGlobal.readPermission g ;;
           _ <- send (UpdateSession sessionId) ;;
           ret tt
         else ret tt
     | _ => ret tt
     end ;;
     startHeartbeat sessionId)%js
    (fun _ => ret tt).

(** [registerSession] of [useFirebaseNotifications]: the session data are
    built, reading [Notification.permission]; then [set], which rejects on
    failure, then the heartbeat; all in one [try] whose [catch] only
    logs. *)
Definition registerSessionFirebase (sessionId : string) : M Registry unit :=
  tryCatch
    (_ <- NotificationGlobal.readPermission g ;;
     answer <- send (SetSession sessionId) ;;
     startHeartbeat sessionId)%js
    (fun _ => ret tt).

End Register.

(** X21: registering a session never rejects.  In a browser without the
    Notification API the read of [Notification.permission] throws inside
    the [try]: nothing is sent and no heartbeat is started, over either
    bridge.  Otherwise, over Supabase the update is sent exactly when the
    insert resolves with the unique-violation code 23505, and the heartbeat
    is started whenever no request rejects, even when the insert was
    refused with another error; over Firebase the heartbeat is started
    exactly when the write does not reject.  A registration never removes
    a heartbeat that is pending. *)
Theorem registerSession_starts_heartbeat
    (store : nat -> StoreAnswer) (g : NotificationGlobal.t)
    (sessionId : string) (r : Registry) :
  let first := store (length (sent r)) in
  let second := store (S (length (sent r))) in
  let viaSupabase := registerSessionSupabase store g sessionId r in
  let viaFirebase := registerSessionFirebase store g sessionId r in
  fst viaSupabase = Returned tt
  /\ fst viaFirebase = Returned tt
  /\ match g with
     | NotificationGlobal.Undeclared _ =>
         snd viaSupabase = r /\ snd viaFirebase = r
     | NotificationGlobal.Declared _ _ =>
         sent (snd viaSupabase)
         = match first with
           | Failed code =>
               if String.eqb code "23505"
               then UpdateSession sessionId :: InsertSession sessionId :: sent r
               else InsertSession sessionId :: sent r
           | _ => InsertSession sessionId :: sent r
           end
         /\ heartbeats (snd viaSupabase)
            = match first, second with
              | Rejects _, _ => heartbeats r
              | Failed code, Rejects _ =>
                  if String.eqb code "23505" then heartbeats r
                  else sessionId :: heartbeats r
              | _, _ => sessionId :: heartbeats r
              end
         /\ sent (snd viaFirebase) = SetSession sessionId :: sent r
         /\ heartbeats (snd viaFirebase)
            = match first with
              | Rejects _ => heartbeats r
              | _ => sessionId :: heartbeats r
              end
     end.
Proof.
  cbv zeta.
  unfold registerSessionSupabase, registerSessionFirebase, tryCatch, bind,
    send, startHeartbeat, modify, ret, NotificationGlobal.readPermission, throw.
  destruct g as [message|permission request]; simpl; [repeat split|].
  destruct (store (length (sent r))) as [|code|e] eqn:E1;
    destruct (store (S (length (sent r)))) as [|code2|e2] eqn:E2;
    try destruct (String.eqb code "23505") eqn:E3;
    simpl; rewrite ?E2; simpl; repeat split; reflexivity.
Qed.

End Presence.
